(** * SEROHAP: vertical image merger (src/index.tsx)

    A shallow embedding of the [App] component: its React state, the
    handlers that maintain the list of staged files ([addFiles],
    [handleRemoveFile], [handleDragSort]) and the merge run
    ([handleMerge]).

    Conventions of the embedding.
    - A JavaScript [number] is an IEEE 754 binary64 value: [float], with
      the primitive operations of the kernel ([PrimFloat]).
    - An array is a [list]; array indices handed out by the rendering
      code ([files.map((file, index) => ...)]) are [nat].
    - A handler is a function of the state its closure was created
      with (the state of the render that installed it) and acts on the
      current world through the state setters.
    - The world is the component state, the browser's blob URL store
      and a log of the calls a handler makes, in program order.
    - [handleMerge] is [async]: it is split at its one [await] into
      [handleMerge_begin] and [handleMerge_resume]; which images load
      and which fail is a parameter ([decodeImage]). *)

From Stdlib Require Import PrimFloat.
From stdpp Require Import list strings gmap.

Set Default Proof Using "Type".

(** ** Data model *)

(** The fields of a browser [File] that the component reads. *)
Record File := mkFile {
  file_name : string;
  file_type : string;
  file_size : N;
}.

(** [useState<'jpeg' | 'png'>] *)
Inductive Format := jpeg | png.

Definition format_ext (f : Format) : string :=
  match f with jpeg => "jpeg" | png => "png" end.

(** The five state cells of [App] that the handlers read or write
    ([isDraggingOver] only drives a CSS class). *)
Record AppState := mkState {
  files : list File;
  outputWidth : float;
  outputFormat : Format;
  isLoading : bool;
  error : option string;
}.

(** The two [useRef] cells of the drag-and-drop sort. *)
Record DragRefs := mkRefs {
  dragItem : option nat;
  dragOverItem : option nat;
}.

(** [useState] initial values. *)
Definition initialState : AppState :=
  mkState [] 780%float jpeg false None.

(** The four messages passed to [setError]. *)
Definition MSG_CAPACITY : string := "최대 10개의 이미지만 추가할 수 있습니다.".
Definition MSG_EMPTY : string := "합칠 이미지를 하나 이상 선택해주세요.".
Definition MSG_WIDTH : string := "가로 사이즈는 100px에서 2000px 사이여야 합니다.".
Definition MSG_PROCESSING : string :=
  "이미지 처리 중 오류가 발생했습니다. 파일 형식이 올바른지 확인해주세요.".

(** State setters. [setFiles] is only ever called with an updater or a
    fresh array, both covered by the updater form. *)
Definition setFiles (upd : list File → list File) (s : AppState) : AppState :=
  mkState (upd (files s)) (outputWidth s) (outputFormat s) (isLoading s) (error s).

Definition setOutputWidth (v : float) (s : AppState) : AppState :=
  mkState (files s) v (outputFormat s) (isLoading s) (error s).

Definition setOutputFormat (v : Format) (s : AppState) : AppState :=
  mkState (files s) (outputWidth s) v (isLoading s) (error s).

Definition setIsLoading (v : bool) (s : AppState) : AppState :=
  mkState (files s) (outputWidth s) (outputFormat s) v (error s).

Definition setError (v : option string) (s : AppState) : AppState :=
  mkState (files s) (outputWidth s) (outputFormat s) (isLoading s) v.

(** [onChange] of the width input (line 160):
    [setOutputWidth(parseInt(e.target.value, 10) || 0)]. [parsed] is
    what [parseInt] returns, NaN when the text does not start with an
    integer; for a number, [x || 0] is [x] unless [x] is NaN or a
    zero. *)
Definition orZero (x : float) : float :=
  if is_nan x || is_zero x then 0%float else x.

Definition handleWidthChange (parsed : float) (s : AppState) : AppState :=
  setOutputWidth (orZero parsed) s.

(** ** Array primitives *)

(** [s.startsWith(p)] *)
Definition startsWith (s p : string) : bool := String.prefix p s.

(** [arr.filter((x, i) => p(x, i))]: the callback also receives the
    index, counted from [i]. *)
Fixpoint filter_indexed {A} (p : A → nat → bool) (i : nat) (l : list A) : list A :=
  match l with
  | [] => []
  | x :: rest =>
      if p x i then x :: filter_indexed p (S i) rest
      else filter_indexed p (S i) rest
  end.

(** [arr.splice(start, deleteCount, ...items)] for non-negative
    arguments: [start] is clamped to the length, [deleteCount] to what
    is left after it. Returns the removed elements and the array as
    it is afterwards. *)
Definition splice {A} (start deleteCount : nat) (items : list A) (l : list A)
  : list A * list A :=
  let actualStart := start `min` length l in
  let actualDeleteCount := deleteCount `min` (length l - actualStart) in
  (take actualDeleteCount (drop actualStart l),
   take actualStart l ++ items ++ drop (actualStart + actualDeleteCount) l).
Global Arguments splice : simpl never.

(** ** The working set: [addFiles], [handleRemoveFile], [handleDragSort] *)

Definition isImageFile (file : File) : bool := startsWith (file_type file) "image/".

(** [s] is the state the handler closes over, [cur] the state the
    setters act on. *)
Definition addFiles_on (s : AppState) (newFiles : list File) (cur : AppState) : AppState :=
  let cur := setError None cur in
  let fileArray := newFiles in
  let imageFiles := List.filter isImageFile fileArray in
  if 10 <? length (files s) + length imageFiles then
    setError (Some MSG_CAPACITY) cur
  else
    setFiles (λ prev, prev ++ imageFiles) cur.

(** The handler as an event on the rendered state. *)
Definition addFiles (newFiles : list File) (s : AppState) : AppState :=
  addFiles_on s newFiles s.

Definition handleRemoveFile (index : nat) (s : AppState) : AppState :=
  setFiles (λ prev, filter_indexed (λ _ i, negb (i =? index)) 0 prev) s.

(** [handleDragSort]. When [dragItem.current] is past the end, the
    first [splice] removes nothing, [draggedItemContent] is
    [undefined] and the second [splice] stores it in the array: the
    result is no [File[]] any more, which is [None] here. *)
Definition handleDragSort (r : DragRefs) (s : AppState) : option (DragRefs * AppState) :=
  match dragItem r, dragOverItem r with
  | Some from, Some to =>
      let newFiles := files s in
      let '(removed, newFiles) := splice from 1 [] newFiles in
      match removed !! 0 with
      | Some draggedItemContent =>
          let '(_, newFiles) := splice to 0 [draggedItemContent] newFiles in
          Some (mkRefs None None, setFiles (λ _, newFiles) s)
      | None => None
      end
  | _, _ => Some (r, s)
  end.

(** [reorder(fromIndex, toIndex)] in the words of the specification:
    remove the entry at [fromIndex], then put it back at [toIndex] of
    the shortened sequence. *)
Definition reorder_spec {A} (fromIndex toIndex : nat) (l : list A) : option (list A) :=
  x ← l !! fromIndex;
  let shortened := delete fromIndex l in
  Some (take toIndex shortened ++ x :: drop toIndex shortened).

(** ** The host: object URLs, canvas calls, state-setter calls *)

(** A loaded [Image]: the object URL assigned to [img.src] and the
    natural size the decoder reported. *)
Record HTMLImageElement := mkImage {
  src : nat;
  naturalWidth : float;
  naturalHeight : float;
}.

(** What a handler does to the outside, in program order.
    [CanvasWidth v] and [CanvasHeight v] are the assignments
    [canvas.width = v] and [canvas.height = v], with the value the code
    assigns; what the element holds afterwards (the host coerces it to
    an integer) is not part of the source. [FillRectCanvas c x y] is
    [ctx.fillStyle = c; ctx.fillRect(x, y, canvas.width, canvas.height)]:
    its last two arguments are read back from the element, so the log
    records that they are the canvas's own size and gives them no
    value. The other calls carry the values the code passes. *)
Inductive Effect :=
| CallSetIsLoading (v : bool)
| CallSetError (v : option string)
| CreateCanvas
| CreateObjectURL (file : File) (url : nat)
| RevokeObjectURL (url : nat)
| CanvasWidth (v : float)
| CanvasHeight (v : float)
| FillRectCanvas (fillStyle : string) (x y : float)
| DrawImage (img : HTMLImageElement) (dx dy dw dh : float)
| ToDataURL (mimeType : string) (quality : option float)
| LinkClick (download : string)
| ConsoleError.

(** The component state together with the part of the browser the
    handlers touch: the blob URL store ([URL.createObjectURL] adds an
    entry, [URL.revokeObjectURL] removes it), the supply of fresh
    URLs, and the log of effects. *)
Record World := mkWorld {
  state : AppState;
  blobStore : gmap nat File;
  nextURL : nat;
  effects : list Effect;
}.

(** Statements either complete normally or throw; the thrown value is
    only ever passed to [console.error], so it is not kept. *)
Inductive Completion (A : Type) :=
| Normal (a : A)
| Thrown.
Arguments Normal {A} a.
Arguments Thrown {A}.

Definition Script (A : Type) : Type := World → Completion A * World.

Global Instance Script_ret : MRet Script := λ A a w, (Normal a, w).
Global Instance Script_bind : MBind Script := λ A B k m w,
  match m w with
  | (Normal a, w') => k a w'
  | (Thrown, w') => (Thrown, w')
  end.

Definition throw {A} : Script A := λ w, (Thrown, w).

(** [try { body } catch { handler } finally { finalizer }] *)
Definition try_catch_finally {A} (body : Script A) (handler finalizer : Script unit)
  : Script (option A) := λ w,
  match body w with
  | (Normal a, w') => (finalizer ;; mret (Some a)) w'
  | (Thrown, w') => (handler ;; finalizer ;; mret None) w'
  end.

Definition emit (e : Effect) : Script unit := λ w,
  (Normal tt, mkWorld (state w) (blobStore w) (nextURL w) (effects w ++ [e])).

Definition modifyState (f : AppState → AppState) : Script unit := λ w,
  (Normal tt, mkWorld (f (state w)) (blobStore w) (nextURL w) (effects w)).

Definition callSetIsLoading (v : bool) : Script unit :=
  emit (CallSetIsLoading v) ;; modifyState (setIsLoading v).

Definition callSetError (v : option string) : Script unit :=
  emit (CallSetError v) ;; modifyState (setError v).

Definition createObjectURL (file : File) : Script nat := λ w,
  let url := nextURL w in
  (Normal url,
   mkWorld (state w) (<[url := file]> (blobStore w)) (S url)
           (effects w ++ [CreateObjectURL file url])).

Definition revokeObjectURL (url : nat) : Script unit := λ w,
  (Normal tt,
   mkWorld (state w) (delete url (blobStore w)) (nextURL w)
           (effects w ++ [RevokeObjectURL url])).

(** [arr.map(f)] with an effectful callback. *)
Fixpoint mapScript {A B} (f : A → Script B) (l : list A) : Script (list B) :=
  match l with
  | [] => mret []
  | x :: rest => y ← f x; ys ← mapScript f rest; mret (y :: ys)
  end.

(** ** [handleMerge] *)

(** An [Image] whose [src] has been set and whose [load] or [error]
    event is still to come. *)
Record PendingImage := mkPending {
  pending_file : File;
  pending_src : nat;
}.

(** Lines 106-112: the [map] that computes the scaled heights and
    accumulates [totalHeight] on the way. *)
Fixpoint scaledHeights_from (outputWidth totalHeight : float)
    (loadedImages : list HTMLImageElement) : list float * float :=
  match loadedImages with
  | [] => ([], totalHeight)
  | img :: rest =>
      let scaleRatio := (outputWidth / naturalWidth img)%float in
      let height := (naturalHeight img * scaleRatio)%float in
      let totalHeight := (totalHeight + height)%float in
      let '(heights, total) := scaledHeights_from outputWidth totalHeight rest in
      (height :: heights, total)
  end.

(** Lines 120-126: the [forEach] that draws image [index] at
    [currentY] and revokes its URL. Reading an array past its end
    gives [undefined], which is NaN in arithmetic. *)
Fixpoint drawImages (outputWidth : float) (scaledHeights : list float)
    (index : nat) (currentY : float) (loadedImages : list HTMLImageElement)
  : Script unit :=
  match loadedImages with
  | [] => mret tt
  | img :: rest =>
      let height := default nan (scaledHeights !! index) in
      emit (DrawImage img 0%float currentY outputWidth height) ;;
      let currentY := (currentY + height)%float in
      revokeObjectURL (src img) ;;
      drawImages outputWidth scaledHeights (S index) currentY rest
  end.

(** The literal [0.92] of line 129, read as the nearest binary64 value
    as JavaScript does. *)
#[warnings="-inexact-float"]
Definition jpegQuality : float := 0.92%float.

Section Host.

(** What the browser's decoder makes of a file: its natural width
    and height ([onload]), or nothing ([onerror]). *)
Variable decodeImage : File → option (float * float).
(** Whether [canvas.getContext('2d')] returns a context. *)
Variable hasContext2d : bool.

(** The executor of one promise (lines 97-102), up to the
    assignment of [img.src]. *)
Definition loadImage (file : File) : Script PendingImage :=
  url ← createObjectURL file;
  mret (mkPending file url).

Definition settled (p : PendingImage) : option HTMLImageElement :=
  '(w, h) ← decodeImage (pending_file p);
  Some (mkImage (pending_src p) w h).

(** [await Promise.all(promises)]: the images in array order when
    every promise resolves, a throw as soon as one rejects. *)
Definition awaitAll (promises : list PendingImage) : Script (list HTMLImageElement) :=
  match mapM settled promises with
  | Some loadedImages => mret loadedImages
  | None => throw
  end.

(** Lines 91-104 up to the [await]. *)
Definition mergeBody_sync (s : AppState) : Script (list PendingImage) :=
  emit CreateCanvas ;;
  (if hasContext2d then mret tt else throw) ;;
  mapScript loadImage (files s).

(** Lines 106-136, after the [await]. *)
Definition mergeBody_rest (s : AppState) (loadedImages : list HTMLImageElement)
  : Script unit :=
  let '(scaledHeights, totalHeight) :=
    scaledHeights_from (outputWidth s) 0%float loadedImages in
  emit (CanvasWidth (outputWidth s)) ;;
  emit (CanvasHeight totalHeight) ;;
  emit (FillRectCanvas "white" 0%float 0%float) ;;
  drawImages (outputWidth s) scaledHeights 0 0%float loadedImages ;;
  let mimeType := "image/" +:+ format_ext (outputFormat s) in
  emit (ToDataURL mimeType
          (match outputFormat s with jpeg => Some jpegQuality | png => None end)) ;;
  emit (LinkClick ("merged-image." +:+ format_ext (outputFormat s))).

Definition mergeCatch : Script unit :=
  emit ConsoleError ;;
  callSetError (Some MSG_PROCESSING).

Definition mergeFinally : Script unit := callSetIsLoading false.

(** The [try] statement up to the [await]: a throw in the
    synchronous part runs [catch] and [finally] at once. *)
Definition mergeTry_sync (s : AppState) : Script (option (list PendingImage)) :=
  λ w, match mergeBody_sync s w with
       | (Normal promises, w') => (Normal (Some promises), w')
       | (Thrown, w') => (mergeCatch ;; mergeFinally ;; mret None) w'
       end.

(** [handleMerge] from its call to the [await]: the validations,
    the two setter calls and the synchronous part of the [try]
    block. [Some promises] means the run is suspended at the
    [await]; [None] means the handler has returned. *)
Definition handleMerge_begin (s : AppState) : Script (option (list PendingImage)) :=
  if length (files s) =? 0 then
    callSetError (Some MSG_EMPTY) ;; mret None
  else if ((outputWidth s <? 100) || (2000 <? outputWidth s))%float then
    callSetError (Some MSG_WIDTH) ;; mret None
  else
    callSetIsLoading true ;;
    callSetError None ;;
    mergeTry_sync s.

(** [handleMerge] from the [await] on. *)
Definition handleMerge_resume (s : AppState) (promises : list PendingImage)
  : Script unit :=
  try_catch_finally
    (loadedImages ← awaitAll promises; mergeBody_rest s loadedImages)
    mergeCatch mergeFinally ;;
  mret tt.

(** A run with nothing happening while it is suspended. *)
Definition handleMerge (s : AppState) : Script unit :=
  suspended ← handleMerge_begin s;
  match suspended with
  | Some promises => handleMerge_resume s promises
  | None => mret tt
  end.

(** The merge button: [disabled={isLoading || files.length === 0}],
    [onClick={handleMerge}]. A click on a disabled button is not
    delivered. *)
Definition mergeButton_disabled (s : AppState) : bool :=
  isLoading s || (length (files s) =? 0).

Definition clickMerge_begin (s : AppState) : Script (option (list PendingImage)) :=
  if mergeButton_disabled s then mret None else handleMerge_begin s.

End Host.


(** ** Reading a run

    Functions that describe what a script leaves behind: the promises,
    blob store and log after the executors of [mapScript loadImage],
    the log of the drawing loop, and projections of a log. *)

Definition fsum (l : list float) : float := fold_left PrimFloat.add l 0%float.

Fixpoint promisesFrom (url : nat) (fs : list File) : list PendingImage :=
  match fs with
  | [] => []
  | file :: rest => mkPending file url :: promisesFrom (S url) rest
  end.

Fixpoint acquired (url : nat) (fs : list File) (store : gmap nat File) : gmap nat File :=
  match fs with
  | [] => store
  | file :: rest => acquired (S url) rest (<[url := file]> store)
  end.

Fixpoint acquireLog (url : nat) (fs : list File) : list Effect :=
  match fs with
  | [] => []
  | file :: rest => CreateObjectURL file url :: acquireLog (S url) rest
  end.

Definition released (imgs : list HTMLImageElement) (store : gmap nat File) : gmap nat File :=
  foldl (λ m img, delete (src img) m) store imgs.

Fixpoint drawLog (outputWidth : float) (scaledHeights : list float)
    (index : nat) (currentY : float) (imgs : list HTMLImageElement) : list Effect :=
  match imgs with
  | [] => []
  | img :: rest =>
      let height := default nan (scaledHeights !! index) in
      DrawImage img 0%float currentY outputWidth height ::
      RevokeObjectURL (src img) ::
      drawLog outputWidth scaledHeights (S index) (currentY + height)%float rest
  end.

Definition scaledHeight (W : float) (img : HTMLImageElement) : float :=
  (naturalHeight img * (W / naturalWidth img))%float.

Definition exportLog (s : AppState) : list Effect :=
  [ToDataURL ("image/" +:+ format_ext (outputFormat s))
     (match outputFormat s with jpeg => Some jpegQuality | png => None end);
   LinkClick ("merged-image." +:+ format_ext (outputFormat s))].

Definition compositeLog (s : AppState) (imgs : list HTMLImageElement) : list Effect :=
  let heights := scaledHeight (outputWidth s) <$> imgs in
  [CanvasWidth (outputWidth s); CanvasHeight (fsum heights);
   FillRectCanvas "white" 0%float 0%float] ++
  drawLog (outputWidth s) heights 0 0%float imgs ++
  exportLog s.
Global Arguments compositeLog : simpl never.

Definition failureLog : list Effect :=
  [ConsoleError; CallSetError (Some MSG_PROCESSING); CallSetIsLoading false].

(** The second validation of [handleMerge] passes. *)
Definition widthInRange (s : AppState) : bool :=
  negb ((outputWidth s <? 100) || (2000 <? outputWidth s))%float.

(** The world after a handler that did nothing but [setError(msg)]. *)
Definition rejectedWith (msg : string) (w : World) : World :=
  mkWorld (setError (Some msg) (state w)) (blobStore w) (nextURL w)
          (effects w ++ [CallSetError (Some msg)]).

(** What a run adds to the log. *)
Definition runLog {A} (m : Script A) (w : World) : list Effect :=
  drop (length (effects w)) (effects (m w).2).

Definition drawCall (e : Effect)
  : option (HTMLImageElement * float * float * float * float) :=
  match e with
  | DrawImage img dx dy dw dh => Some (img, dx, dy, dw, dh)
  | _ => None
  end.

Definition drawCalls (evs : list Effect) := omap drawCall evs.

Definition drawnHeights (evs : list Effect) : list float :=
  (λ call, call.2) <$> drawCalls evs.

Definition canvasWidths (evs : list Effect) : list float :=
  omap (λ e, match e with CanvasWidth v => Some v | _ => None end) evs.

Definition canvasHeights (evs : list Effect) : list float :=
  omap (λ e, match e with CanvasHeight v => Some v | _ => None end) evs.

(** The canvas, encoder and download calls. *)
Definition producesOutput (e : Effect) : bool :=
  match e with
  | CanvasWidth _ | CanvasHeight _ | FillRectCanvas _ _ _ | DrawImage _ _ _ _ _
  | ToDataURL _ _ | LinkClick _ => true
  | _ => false
  end.

(** Scale factor and scaled height of a file at output width [W], from
    the natural size its decoding gives. *)
Definition fileScale (decodeImage : File → option (float * float)) (W : float)
    (file : File) : float :=
  match decodeImage file with
  | Some (nw, _) => (W / nw)%float
  | None => nan
  end.

Definition fileHeight (decodeImage : File → option (float * float)) (W : float)
    (file : File) : float :=
  match decodeImage file with
  | Some (_, nh) => (nh * fileScale decodeImage W file)%float
  | None => nan
  end.

(** ** Sample data *)

Definition fileA : File := mkFile "a.png" "image/png" 2048.
Definition fileB : File := mkFile "b.jpg" "image/jpeg" 4096.
Definition fileC : File := mkFile "c.webp" "image/webp" 1024.
Definition notes : File := mkFile "notes.txt" "text/plain" 12.
Definition corrupt : File := mkFile "broken.png" "image/png" 7.

Definition stateABC : AppState := setFiles (λ _, [fileA; fileB; fileC]) initialState.
Definition stateBCA : AppState := setFiles (λ _, [fileB; fileC; fileA]) initialState.
Definition stateBroken : AppState := setFiles (λ _, [fileA; corrupt]) initialState.

(** A decoder for the samples: three images of natural sizes 800x400,
    400x400 and 1200x600; anything else fails to decode. *)
Definition sampleDecoder (file : File) : option (float * float) :=
  if String.eqb (file_name file) "a.png" then Some (800, 400)%float
  else if String.eqb (file_name file) "b.jpg" then Some (400, 400)%float
  else if String.eqb (file_name file) "c.webp" then Some (1200, 600)%float
  else None.

(** A freshly loaded page in state [s]: no object URL yet, empty log. *)
Definition worldOf (s : AppState) : World := mkWorld s ∅ 0 [].

(** The images of the specification's first scenario. *)
Definition scenarioImages : list HTMLImageElement :=
  [mkImage 0 800 400; mkImage 1 400 400; mkImage 2 1200 600]%float.

(** The world while a first run over the three samples is suspended
    at its [await]. *)
Definition worldRunning : World :=
  (handleMerge_begin true stateABC (worldOf stateABC)).2.

(** ** Drag gestures, events and further readings of a world *)

(** [onDragStart={() => dragItem.current = index}] and
    [onDragEnter={() => dragOverItem.current = index}] of a rendered
    item (lines 205-206). *)
Definition onDragStart (index : nat) (r : DragRefs) : DragRefs :=
  mkRefs (Some index) (dragOverItem r).

Definition onDragEnter (index : nat) (r : DragRefs) : DragRefs :=
  mkRefs (dragItem r) (Some index).

(** A drag of the item rendered at [index] over the items [entered],
    ended by [onDragEnd={handleDragSort}] (line 207). *)
Definition dragGesture (index : nat) (entered : list nat) (r : DragRefs) (s : AppState)
  : option (DragRefs * AppState) :=
  handleDragSort (foldl (λ r j, onDragEnter j r) (onDragStart index r) entered) s.

(** A synchronous handler acting on the component state of a world. *)
Definition onState (f : AppState → AppState) (w : World) : World :=
  mkWorld (f (state w)) (blobStore w) (nextURL w) (effects w).

(** The worlds a run of [handleMerge] can end in, besides the two
    validation rejections ([rejectedWith]): no 2d context, a rejected
    [Promise.all], and a completed merge of the images [imgs]. *)
Definition noContextWorld (w : World) : World :=
  mkWorld (setIsLoading false (setError (Some MSG_PROCESSING)
             (setError None (setIsLoading true (state w)))))
          (blobStore w) (nextURL w)
          (effects w ++ [CallSetIsLoading true; CallSetError None; CreateCanvas] ++
           failureLog).

Definition failedWorld (s : AppState) (w : World) : World :=
  mkWorld (setIsLoading false (setError (Some MSG_PROCESSING)
             (setError None (setIsLoading true (state w)))))
          (acquired (nextURL w) (files s) (blobStore w))
          (nextURL w + length (files s))
          (effects w ++ [CallSetIsLoading true; CallSetError None; CreateCanvas] ++
           acquireLog (nextURL w) (files s) ++ failureLog).

Definition mergedWorld (s : AppState) (imgs : list HTMLImageElement) (w : World) : World :=
  mkWorld (setIsLoading false (setError None (setIsLoading true (state w))))
          (released imgs (acquired (nextURL w) (files s) (blobStore w)))
          (nextURL w + length (files s))
          (effects w ++ [CallSetIsLoading true; CallSetError None; CreateCanvas] ++
           acquireLog (nextURL w) (files s) ++
           compositeLog s imgs ++ [CallSetIsLoading false]).

Definition createdURLs (evs : list Effect) : list nat :=
  omap (λ e, match e with CreateObjectURL _ url => Some url | _ => None end) evs.

Definition revokedURLs (evs : list Effect) : list nat :=
  omap (λ e, match e with RevokeObjectURL url => Some url | _ => None end) evs.

Definition isExport (e : Effect) : bool :=
  match e with
  | ToDataURL _ _ | LinkClick _ => true
  | _ => false
  end.

(** What the working set and the width cell are meant to satisfy. *)
Definition workingSetOk (s : AppState) : Prop :=
  length (files s) ≤ 10 ∧
  Forall (λ file, isImageFile file = true) (files s) ∧
  is_nan (outputWidth s) = false.

(** One event handled by a synchronous handler on the state as
    rendered: a batch of files picked or dropped, a click on a remove
    button, the end of a drag whose source position is in the list, an
    edit of the width, a choice of the format. *)
Inductive edit : AppState → AppState → Prop :=
| edit_addFiles (newFiles : list File) (s : AppState) :
    edit s (addFiles newFiles s)
| edit_removeFile (index : nat) (s : AppState) :
    edit s (handleRemoveFile index s)
| edit_dragSort (r r' : DragRefs) (s s' : AppState) :
    handleDragSort r s = Some (r', s') → edit s s'
| edit_widthChange (parsed : float) (s : AppState) :
    edit s (handleWidthChange parsed s)
| edit_formatChange (v : Format) (s : AppState) :
    edit s (setOutputFormat v s).

(** One step of the component state: an edit, the start of a merge run
    (up to its [await], or to its end when it ends before), or the
    rest of a suspended run. The closure state [s] of a run need not
    be the current one: a run started earlier finds the state as the
    steps in between left it. *)
Inductive step : AppState → AppState → Prop :=
| step_edit (s s' : AppState) :
    edit s s' → step s s'
| step_mergeBegin (ctx : bool) (s : AppState) (w : World) :
    step (state w) (state (handleMerge_begin ctx s w).2)
| step_mergeResume (decodeImage : File → option (float * float))
    (s : AppState) (promises : list PendingImage) (w : World) :
    step (state w) (state (handleMerge_resume decodeImage s promises w).2).

(** The component with the merge runs that are suspended at their
    [await]: for each its closure state and its promises. *)
Record Session := mkSession {
  world : World;
  inFlight : list (AppState * list PendingImage);
}.

(** What the user can make happen: an edit; a click on the merge
    button, which reaches [handleMerge] only when the button is
    enabled and leaves a run in flight when it suspends; and the
    browser settling the promises of a run in flight, which resumes
    that run. *)
Inductive uiStep (decodeImage : File → option (float * float))
  : Session → Session → Prop :=
| ui_edit (w : World) (s' : AppState) (runs : list (AppState * list PendingImage)) :
    edit (state w) s' →
    uiStep decodeImage (mkSession w runs) (mkSession (onState (λ _, s') w) runs)
| ui_click_suspends (ctx : bool) (w w' : World) (promises : list PendingImage)
    (runs : list (AppState * list PendingImage)) :
    clickMerge_begin ctx (state w) w = (Normal (Some promises), w') →
    uiStep decodeImage (mkSession w runs) (mkSession w' ((state w, promises) :: runs))
| ui_click_returns (ctx : bool) (w w' : World)
    (runs : list (AppState * list PendingImage)) :
    clickMerge_begin ctx (state w) w = (Normal None, w') →
    uiStep decodeImage (mkSession w runs) (mkSession w' runs)
| ui_settle (w : World) (s : AppState) (promises : list PendingImage)
    (earlier later : list (AppState * list PendingImage)) :
    uiStep decodeImage
      (mkSession w (earlier ++ (s, promises) :: later))
      (mkSession (handleMerge_resume decodeImage s promises w).2 (earlier ++ later)).

(** A list of nine more sample images. *)
Definition nineImages : list File := replicate 9 fileB.

(** * Properties *)

(** ** Array primitives *)

Section Arrays.
Context {A : Type}.
Implicit Types (l : list A) (x : A).

Lemma filter_indexed_skip (index k : nat) l :
  filter_indexed (λ _ i, negb (i =? index)) k l =
  if decide (k ≤ index) then delete (index - k) l else l.
Proof.
  revert k. induction l as [|x rest IH]; intros k; simpl.
  - by case_decide.
  - rewrite IH. destruct (Nat.eqb_spec k index) as [->|Hne]; simpl.
    + rewrite Nat.sub_diag. repeat case_decide; (done || lia).
    + repeat case_decide; try lia; [|done].
      by replace (index - k) with (S (index - S k)) by lia.
Qed.

Lemma splice_remove_one (start : nat) l x :
  l !! start = Some x →
  splice start 1 [] l = ([x], delete start l).
Proof.
  intros Hx. pose proof (lookup_lt_Some _ _ _ Hx) as Hlt.
  unfold splice. cbv zeta.
  replace (start `min` length l) with start by lia.
  replace (1 `min` (length l - start)) with 1 by lia. f_equal.
  - by rewrite (drop_S _ _ _ Hx).
  - simpl. rewrite delete_take_drop. by rewrite Nat.add_1_r.
Qed.

Lemma splice_remove_none (start : nat) l :
  length l ≤ start →
  splice start 1 [] l = ([], l).
Proof.
  intros Hge. unfold splice. cbv zeta.
  replace (start `min` length l) with (length l) by lia.
  rewrite Nat.sub_diag, Nat.min_r by lia. simpl.
  rewrite Nat.add_0_r, firstn_all, drop_all. by rewrite app_nil_r.
Qed.

Lemma splice_insert_one (start : nat) l x :
  splice start 0 [x] l = ([], take start l ++ x :: drop start l).
Proof.
  unfold splice. cbv zeta. simpl. rewrite Nat.add_0_r.
  destruct (decide (start ≤ length l)).
  - by rewrite Nat.min_l.
  - rewrite Nat.min_r by lia.
    rewrite firstn_all, drop_all. simpl.
    by rewrite take_ge, drop_ge by lia.
Qed.

(** The two [splice] calls of [handleDragSort] do what the
    specification's [reorder] says, also out of range. *)
Lemma splice_twice_reorder (from to : nat) l :
  (let '(removed, rest) := splice from 1 [] l in
   match removed !! 0 with
   | Some x => Some (splice to 0 [x] rest).2
   | None => None
   end) = reorder_spec from to l.
Proof.
  unfold reorder_spec. destruct (l !! from) as [x|] eqn:Hx.
  - rewrite (splice_remove_one _ _ _ Hx). cbv beta iota.
    change ([x] !! 0) with (Some x). cbv beta iota.
    by rewrite splice_insert_one.
  - apply lookup_ge_None in Hx. by rewrite splice_remove_none.
Qed.

Lemma reorder_spec_Some (from to : nat) l :
  from < length l →
  ∃ x, l !! from = Some x ∧
       reorder_spec from to l =
         Some (take to (delete from l) ++ x :: drop to (delete from l)).
Proof.
  intros Hlt. destruct (lookup_lt_is_Some_2 l from Hlt) as [x Hx].
  exists x. split; [done|]. unfold reorder_spec. by rewrite Hx.
Qed.

Lemma reorder_spec_None (from to : nat) l :
  length l ≤ from → reorder_spec from to l = None.
Proof.
  intros Hge. unfold reorder_spec. by rewrite (lookup_ge_None_2 _ _ Hge).
Qed.

(** What a move is: the entry sits at [to], and taking it out again
    leaves the list without position [from]. *)
Lemma reorder_spec_move (from to : nat) l l' x :
  l !! from = Some x → to < length l →
  reorder_spec from to l = Some l' →
  l' !! to = Some x ∧ delete to l' = delete from l ∧
  length l' = length l ∧ l' ≡ₚ l.
Proof.
  intros Hx Hto Hl'. pose proof (lookup_lt_Some _ _ _ Hx) as Hfrom.
  unfold reorder_spec in Hl'. rewrite Hx in Hl'. simpl in Hl'.
  injection Hl' as <-.
  assert (Hlen : length (delete from l) = length l - 1).
  { rewrite length_delete; [lia | by eexists]. }
  assert (Htake : length (take to (delete from l)) = to).
  { rewrite length_take. lia. }
  split_and!.
  - rewrite lookup_app_r by lia. by rewrite Htake, Nat.sub_diag.
  - rewrite delete_take_drop.
    rewrite take_app_length' by done.
    rewrite drop_app_ge by lia. rewrite Htake.
    replace (S to - to) with 1 by lia. simpl. rewrite drop_0.
    apply take_drop.
  - rewrite length_app. simpl. rewrite Htake, length_drop. lia.
  - rewrite <- Permutation_middle, take_drop.
    rewrite delete_take_drop.
    rewrite <- (take_drop_middle l from x) at 3 by done.
    by rewrite <- Permutation_middle.
Qed.

End Arrays.



(** ** The working set *)

Example isImageFile_samples :
  isImageFile fileA = true ∧ isImageFile fileB = true ∧ isImageFile notes = false.
Proof. by split_and!. Qed.

Example splice_samples :
  splice 1 1 [] [fileA; fileB; fileC] = ([fileB], [fileA; fileC]) ∧
  splice 2 0 [fileB] [fileA; fileC] = ([], [fileA; fileC; fileB]) ∧
  splice 7 1 [] [fileA; fileC] = ([], [fileA; fileC]).
Proof. by split_and!. Qed.

Example addFiles_drops_other_types :
  addFiles [notes; fileB] (setFiles (λ _, [fileA]) initialState) =
  setFiles (λ _, [fileA; fileB]) initialState.
Proof. reflexivity. Qed.

(** The width cell never holds NaN: it starts at 780 and is only
    written by [handleWidthChange]. *)
Lemma handleWidthChange_number (parsed : float) (s : AppState) :
  is_nan (outputWidth (handleWidthChange parsed s)) = false.
Proof.
  simpl. unfold orZero. destruct (is_nan parsed) eqn:Hnan; [reflexivity|].
  simpl. by destruct (is_zero parsed).
Qed.

Lemma addFiles_on_rejected (s cur : AppState) (newFiles : list File) :
  length (files s) + length (List.filter isImageFile newFiles) > 10 →
  addFiles_on s newFiles cur = setError (Some MSG_CAPACITY) cur.
Proof.
  intros Hover. unfold addFiles_on.
  destruct (Nat.ltb_spec 10 (length (files s) +
                             length (List.filter isImageFile newFiles))); [done | lia].
Qed.

Lemma addFiles_on_admitted (s cur : AppState) (newFiles : list File) :
  length (files s) + length (List.filter isImageFile newFiles) ≤ 10 →
  addFiles_on s newFiles cur =
    setFiles (λ prev, prev ++ List.filter isImageFile newFiles) (setError None cur).
Proof.
  intros Hfits. unfold addFiles_on.
  destruct (Nat.ltb_spec 10 (length (files s) +
                             length (List.filter isImageFile newFiles))); [lia | done].
Qed.

(** C2: a batch whose image-typed files would take the working set
    past 10 entries is rejected as a whole: the capacity message is
    set and the list of files is the one before the call; nothing but
    the error cell changes. *)
Theorem addFiles_rejects_whole_batch (s : AppState) (newFiles : list File) :
  length (files s) + length (List.filter isImageFile newFiles) > 10 →
  error (addFiles newFiles s) = Some MSG_CAPACITY ∧
  files (addFiles newFiles s) = files s ∧
  addFiles newFiles s = setError (Some MSG_CAPACITY) s.
Proof.
  intros Hover. unfold addFiles. by rewrite addFiles_on_rejected.
Qed.

Lemma addFiles_rejects_whole_batch_witness :
  length (files stateABC) +
    length (List.filter isImageFile (notes :: replicate 8 fileA)) > 10 ∧
  error (addFiles (notes :: replicate 8 fileA) stateABC) = Some MSG_CAPACITY ∧
  files (addFiles (notes :: replicate 8 fileA) stateABC) = [fileA; fileB; fileC].
Proof.
  split; [simpl; lia|].
  destruct (addFiles_rejects_whole_batch stateABC (notes :: replicate 8 fileA))
    as (He & Hf & _); [simpl; lia|].
  split; [exact He | exact Hf].
Defined.

(** C9: [handleRemoveFile] takes out the entry at the position it is
    given and nothing else: the entries before and after it stay, in
    order; a position past the end leaves the whole state as it is,
    without setting an error. *)
Theorem handleRemoveFile_removes_one (s : AppState) (index : nat) :
  files (handleRemoveFile index s) = delete index (files s) ∧
  (∀ before x after,
     files s = before ++ x :: after → length before = index →
     files (handleRemoveFile index s) = before ++ after) ∧
  (length (files s) ≤ index → handleRemoveFile index s = s) ∧
  length (files s) ≤ S (length (files (handleRemoveFile index s))) ∧
  error (handleRemoveFile index s) = error s ∧
  isLoading (handleRemoveFile index s) = isLoading s ∧
  outputWidth (handleRemoveFile index s) = outputWidth s ∧
  outputFormat (handleRemoveFile index s) = outputFormat s.
Proof.
  assert (Hdel : files (handleRemoveFile index s) = delete index (files s)).
  { unfold handleRemoveFile. simpl. rewrite filter_indexed_skip.
    case_decide; [|lia]. by rewrite Nat.sub_0_r. }
  split_and!; try done.
  - intros before x after Hsplit <-. rewrite Hdel, Hsplit.
    rewrite delete_take_drop.
    rewrite take_app_length. rewrite cons_middle, app_assoc.
    rewrite drop_app_length'; [done|]. rewrite length_app. simpl. lia.
  - intros Hge. destruct s as [fs w fmt ld err]. unfold handleRemoveFile, setFiles.
    simpl in *. f_equal. rewrite filter_indexed_skip.
    case_decide; [|lia]. rewrite Nat.sub_0_r.
    rewrite delete_take_drop. rewrite take_ge, drop_ge by lia. apply app_nil_r.
  - rewrite Hdel. destruct (decide (index < length (files s))) as [Hlt|Hge].
    + rewrite length_delete by by apply lookup_lt_is_Some_2. lia.
    + rewrite delete_take_drop, take_ge, drop_ge by lia.
      rewrite app_nil_r. lia.
Qed.

Lemma handleRemoveFile_removes_one_witness :
  files (handleRemoveFile 1 stateABC) = [fileA; fileC] ∧
  handleRemoveFile 3 stateABC = stateABC.
Proof.
  split.
  - destruct (handleRemoveFile_removes_one stateABC 1) as (_ & Hmid & _).
    apply (Hmid [fileA] fileB [fileC]); reflexivity.
  - destruct (handleRemoveFile_removes_one stateABC 3) as (_ & _ & Hpast & _).
    apply Hpast. simpl. lia.
Defined.

Lemma handleDragSort_reorder_spec (from to : nat) (s : AppState) :
  handleDragSort (mkRefs (Some from) (Some to)) s =
  (λ newFiles, (mkRefs None None, setFiles (λ _, newFiles) s))
    <$> reorder_spec from to (files s).
Proof.
  unfold handleDragSort, dragItem, dragOverItem.
  rewrite <- splice_twice_reorder.
  destruct (splice from 1 [] (files s)) as [removed rest].
  destruct (removed !! 0) as [x|]; [|reflexivity].
  by destruct (splice to 0 [x] rest) as [? ?].
Qed.

(** C7: with both drag positions inside the list, [handleDragSort]
    takes the entry out of position [from] and puts it back at
    position [to] of the shortened list, as the specification's
    [reorder] does: the entry ends at [to], the other entries keep
    their order, nothing is lost or duplicated. Moving position 0 of
    [A; B; C] to position 2 gives [B; C; A] (a swap would give
    [C; B; A]). *)
Theorem handleDragSort_moves_one :
  (∀ (r : DragRefs) (s : AppState) (from to : nat),
     dragItem r = Some from → dragOverItem r = Some to →
     from < length (files s) → to < length (files s) →
     ∃ x newFiles,
       files s !! from = Some x ∧
       handleDragSort r s = Some (mkRefs None None, setFiles (λ _, newFiles) s) ∧
       reorder_spec from to (files s) = Some newFiles ∧
       newFiles = take to (delete from (files s)) ++ x :: drop to (delete from (files s)) ∧
       newFiles !! to = Some x ∧
       delete to newFiles = delete from (files s) ∧
       length newFiles = length (files s) ∧
       newFiles ≡ₚ files s) ∧
  (∀ (s : AppState) (A B C : File),
     handleDragSort (mkRefs (Some 0) (Some 2)) (setFiles (λ _, [A; B; C]) s) =
     Some (mkRefs None None, setFiles (λ _, [B; C; A]) s)).
Proof.
  split.
  - intros [di doi] s from to Hdi Hdoi Hfrom Hto. simpl in Hdi, Hdoi. subst.
    destruct (reorder_spec_Some from to (files s) Hfrom) as (x & Hx & Hspec).
    exists x, (take to (delete from (files s)) ++ x :: drop to (delete from (files s))).
    destruct (reorder_spec_move from to (files s) _ x Hx Hto Hspec)
      as (Hat & Hdel & Hlen & Hperm).
    split_and!; try done.
    rewrite handleDragSort_reorder_spec. by rewrite Hspec.
  - intros s A B C. rewrite handleDragSort_reorder_spec. reflexivity.
Qed.

Lemma handleDragSort_moves_one_witness :
  ∃ x newFiles,
    files stateABC !! 0 = Some x ∧
    handleDragSort (mkRefs (Some 0) (Some 2)) stateABC =
      Some (mkRefs None None, setFiles (λ _, newFiles) stateABC) ∧
    reorder_spec 0 2 (files stateABC) = Some newFiles ∧
    newFiles = take 2 (delete 0 (files stateABC)) ++ x :: drop 2 (delete 0 (files stateABC)) ∧
    newFiles !! 2 = Some x ∧
    delete 2 newFiles = delete 0 (files stateABC) ∧
    length newFiles = length (files stateABC) ∧
    newFiles ≡ₚ files stateABC.
Proof.
  apply (proj1 handleDragSort_moves_one (mkRefs (Some 0) (Some 2)) stateABC 0 2);
    [reflexivity | reflexivity | simpl; lia | simpl; lia].
Defined.

(** ** Runs of the scripts *)







Lemma bind_run {A B} (m : Script A) (k : A → Script B) (w : World) :
  (m ≫= k) w = match m w with
               | (Normal a, w') => k a w'
               | (Thrown, w') => (Thrown, w')
               end.
Proof. reflexivity. Qed.

(** Unfold the next binds of a script applied to a world. *)
Ltac run_script := repeat (rewrite bind_run; simpl).

Lemma mapScript_loadImage_run (fs : list File) (w : World) :
  mapScript loadImage fs w =
  (Normal (promisesFrom (nextURL w) fs),
   mkWorld (state w) (acquired (nextURL w) fs (blobStore w))
           (nextURL w + length fs) (effects w ++ acquireLog (nextURL w) fs)).
Proof.
  revert w. induction fs as [|file rest IH]; intros [st store url evs]; simpl.
  - unfold mret, Script_ret. by rewrite Nat.add_0_r, app_nil_r.
  - rewrite bind_run. unfold loadImage at 1. rewrite bind_run. simpl.
    unfold mret at 1, Script_ret at 1. rewrite bind_run, IH. simpl.
    unfold mret, Script_ret. rewrite <- app_assoc. simpl.
    by rewrite Nat.add_succ_r.
Qed.

Lemma drawImages_run (W : float) (hs : list float) (index : nat) (y : float)
    (imgs : list HTMLImageElement) (w : World) :
  drawImages W hs index y imgs w =
  (Normal tt,
   mkWorld (state w) (released imgs (blobStore w)) (nextURL w)
           (effects w ++ drawLog W hs index y imgs)).
Proof.
  revert index y w. induction imgs as [|img rest IH]; intros index y [st store url evs]; simpl.
  - unfold mret, Script_ret. by rewrite app_nil_r.
  - run_script. rewrite IH. simpl.
    by rewrite <- !app_assoc.
Qed.

Lemma scaledHeights_from_map (W total : float) (imgs : list HTMLImageElement) :
  scaledHeights_from W total imgs =
  ((λ img, naturalHeight img * (W / naturalWidth img))%float <$> imgs,
   fold_left PrimFloat.add
     ((λ img, naturalHeight img * (W / naturalWidth img))%float <$> imgs) total).
Proof.
  revert total. induction imgs as [|img rest IH]; intros total; simpl; [done|].
  by rewrite IH.
Qed.






Lemma mergeBody_rest_run (s : AppState) (imgs : list HTMLImageElement) (w : World) :
  mergeBody_rest s imgs w =
  (Normal tt,
   mkWorld (state w) (released imgs (blobStore w)) (nextURL w)
           (effects w ++ compositeLog s imgs)).
Proof.
  unfold mergeBody_rest, compositeLog. rewrite scaledHeights_from_map.
  destruct w as [st store url evs]. run_script.
  rewrite drawImages_run. simpl. run_script.
  unfold emit. simpl. by rewrite <- !app_assoc.
Qed.

Lemma handleMerge_begin_empty (ctx : bool) (s : AppState) (w : World) :
  files s = [] →
  handleMerge_begin ctx s w =
  (Normal None,
   mkWorld (setError (Some MSG_EMPTY) (state w)) (blobStore w) (nextURL w)
           (effects w ++ [CallSetError (Some MSG_EMPTY)])).
Proof. intros Hfiles. unfold handleMerge_begin. by rewrite Hfiles. Qed.

Lemma handleMerge_begin_width (ctx : bool) (s : AppState) (w : World) :
  files s ≠ [] → widthInRange s = false →
  handleMerge_begin ctx s w =
  (Normal None,
   mkWorld (setError (Some MSG_WIDTH) (state w)) (blobStore w) (nextURL w)
           (effects w ++ [CallSetError (Some MSG_WIDTH)])).
Proof.
  intros Hfiles Hwidth. unfold handleMerge_begin.
  destruct (files s) as [|file rest]; [done|]. simpl.
  apply negb_false_iff in Hwidth. by rewrite Hwidth.
Qed.

Lemma handleMerge_begin_no_context (s : AppState) (w : World) :
  files s ≠ [] → widthInRange s = true →
  handleMerge_begin false s w =
  (Normal None,
   mkWorld (setIsLoading false (setError (Some MSG_PROCESSING)
              (setError None (setIsLoading true (state w)))))
           (blobStore w) (nextURL w)
           (effects w ++ [CallSetIsLoading true; CallSetError None; CreateCanvas] ++
            failureLog)).
Proof.
  intros Hfiles Hwidth. unfold handleMerge_begin.
  destruct (files s) as [|file rest]; [done|]. simpl.
  apply negb_true_iff in Hwidth. rewrite Hwidth.
  destruct w as [st store url evs]. run_script.
  unfold mergeTry_sync, mergeBody_sync. run_script.
  by rewrite <- !app_assoc.
Qed.

Lemma handleMerge_begin_suspends (s : AppState) (w : World) :
  files s ≠ [] → widthInRange s = true →
  handleMerge_begin true s w =
  (Normal (Some (promisesFrom (nextURL w) (files s))),
   mkWorld (setError None (setIsLoading true (state w)))
           (acquired (nextURL w) (files s) (blobStore w))
           (nextURL w + length (files s))
           (effects w ++ [CallSetIsLoading true; CallSetError None; CreateCanvas] ++
            acquireLog (nextURL w) (files s))).
Proof.
  intros Hfiles Hwidth. unfold handleMerge_begin.
  assert ((length (files s) =? 0) = false) as -> by by destruct (files s).
  apply negb_true_iff in Hwidth. rewrite Hwidth.
  destruct w as [st store url evs]. run_script.
  unfold mergeTry_sync, mergeBody_sync. run_script.
  rewrite mapScript_loadImage_run. simpl.
  by rewrite <- !app_assoc.
Qed.

Lemma handleMerge_resume_loaded (decodeImage : File → option (float * float))
    (s : AppState) (promises : list PendingImage) (imgs : list HTMLImageElement)
    (w : World) :
  mapM (settled decodeImage) promises = Some imgs →
  handleMerge_resume decodeImage s promises w =
  (Normal tt,
   mkWorld (setIsLoading false (state w)) (released imgs (blobStore w)) (nextURL w)
           (effects w ++ compositeLog s imgs ++ [CallSetIsLoading false])).
Proof.
  intros Hall. unfold handleMerge_resume, try_catch_finally, awaitAll.
  rewrite Hall. run_script. rewrite mergeBody_rest_run. simpl.
  run_script. unfold mret, Script_ret, compositeLog.
  repeat (simpl; rewrite <- app_assoc). done.
Qed.

Lemma handleMerge_resume_rejected (decodeImage : File → option (float * float))
    (s : AppState) (promises : list PendingImage) (w : World) :
  mapM (settled decodeImage) promises = None →
  handleMerge_resume decodeImage s promises w =
  (Normal tt,
   mkWorld (setIsLoading false (setError (Some MSG_PROCESSING) (state w)))
           (blobStore w) (nextURL w) (effects w ++ failureLog)).
Proof.
  intros Hrej. unfold handleMerge_resume, try_catch_finally, awaitAll.
  rewrite Hrej. destruct w as [st store url evs]. run_script.
  by rewrite <- !app_assoc.
Qed.

(** ** Reading the log *)





Lemma drawLog_calls (W : float) (done_ hs : list float) (y : float)
    (imgs : list HTMLImageElement) :
  length hs = length imgs →
  drawCalls (drawLog W (done_ ++ hs) (length done_) y imgs) =
  imap (λ i img, (img, 0%float, fold_left PrimFloat.add (take i hs) y, W,
                  default nan (hs !! i))) imgs.
Proof.
  revert done_ hs y. induction imgs as [|img rest IH]; intros done_ hs y Hlen; [done|].
  destruct hs as [|h hs]; [done|]. simpl in Hlen.
  cbn [drawLog]. rewrite list_lookup_middle by done. cbn [default].
  unfold drawCalls. cbn [omap list_omap drawCall]. fold (drawCalls).
  rewrite imap_cons. f_equal.
  replace (done_ ++ h :: hs) with ((done_ ++ [h]) ++ hs) by by rewrite <- app_assoc.
  replace (S (length done_)) with (length (done_ ++ [h]))
    by (rewrite length_app; simpl; lia).
  rewrite IH by lia. done.
Qed.

Lemma drawLog_calls_all (W : float) (hs : list float) (imgs : list HTMLImageElement) :
  length hs = length imgs →
  drawCalls (drawLog W hs 0 0%float imgs) =
  imap (λ i img, (img, 0%float, fsum (take i hs), W, default nan (hs !! i))) imgs.
Proof. apply (drawLog_calls W [] hs). Qed.

Lemma drawLog_no_canvas_size (W : float) (hs : list float) (index : nat) (y : float)
    (imgs : list HTMLImageElement) :
  canvasWidths (drawLog W hs index y imgs) = [] ∧
  canvasHeights (drawLog W hs index y imgs) = [].
Proof.
  revert index y. induction imgs as [|img rest IH]; intros index y; [done|].
  apply (IH (S index)).
Qed.

(** C1: for any list of loaded images and any output width [W], what
    lines 106-126 compute is: scaled height [h * (W / w)] for an image
    of natural size [w] x [h]; image [i] drawn at [y] equal to the sum
    of the scaled heights of the images before it, with width [W] and
    its scaled height; canvas width [W] and canvas height the sum of
    all scaled heights, both assigned before the first draw. Sums are
    taken left to right in binary64, as the loops accumulate them. *)
Theorem mergeBody_rest_layout (s : AppState) (loadedImages : list HTMLImageElement)
    (w : World) :
  let W := outputWidth s in
  let scaled := λ img, (naturalHeight img * (W / naturalWidth img))%float in
  let heights := scaled <$> loadedImages in
  (scaledHeights_from W 0%float loadedImages).1 = heights ∧
  ∃ evs,
    effects (mergeBody_rest s loadedImages w).2 =
      effects w ++ CanvasWidth W :: CanvasHeight (fsum heights) :: evs ∧
    canvasWidths evs = [] ∧ canvasHeights evs = [] ∧
    drawCalls evs =
      imap (λ i img, (img, 0%float, fsum (take i heights), W, scaled img))
           loadedImages.
Proof.
  intros W scaled heights. split.
  { by rewrite scaledHeights_from_map. }
  rewrite mergeBody_rest_run. unfold compositeLog. fold W.
  change (scaledHeight W <$> loadedImages) with heights.
  eexists. split; [reflexivity|].
  destruct (drawLog_no_canvas_size W heights 0 0%float loadedImages) as [Hw Hh].
  split_and!.
  - unfold canvasWidths in *. cbn [omap list_omap]. by rewrite omap_app, Hw.
  - unfold canvasHeights in *. cbn [omap list_omap]. by rewrite omap_app, Hh.
  - unfold drawCalls. cbn [omap list_omap drawCall]. rewrite omap_app.
    cbn [exportLog omap list_omap drawCall]. rewrite app_nil_r.
    fold (drawCalls (drawLog W heights 0 0%float loadedImages)).
    rewrite drawLog_calls_all by (unfold heights; by rewrite length_fmap).
    apply imap_ext. intros i img Himg. simpl. repeat f_equal.
    unfold heights. by rewrite list_lookup_fmap, Himg.
Qed.

(** ** Validation and failure of a merge run *)



Lemma handleMerge_unfold (decodeImage : File → option (float * float)) (ctx : bool)
    (s : AppState) (w : World) :
  handleMerge decodeImage ctx s w =
  match handleMerge_begin ctx s w with
  | (Normal (Some promises), w') => handleMerge_resume decodeImage s promises w'
  | (Normal None, w') => (Normal tt, w')
  | (Thrown, w') => (Thrown, w')
  end.
Proof.
  unfold handleMerge. rewrite bind_run.
  destruct (handleMerge_begin ctx s w) as [[[promises|]|] w']; done.
Qed.

(** C3: with an empty list of files [handleMerge] only sets the
    empty-set message; with files but an output width below 100 or
    above 2000 it only sets the width message. In both cases the
    handler returns before the [try] block: no run is suspended, the
    log gains the one [setError] call (no [setIsLoading(true)], no
    object URL, no image), and [isLoading], the files and the blob
    store are as before. The two messages differ. *)
Theorem handleMerge_validation (decodeImage : File → option (float * float))
    (ctx : bool) (s : AppState) (w : World) :
  (files s = [] →
     handleMerge_begin ctx s w = (Normal None, rejectedWith MSG_EMPTY w) ∧
     handleMerge decodeImage ctx s w = (Normal tt, rejectedWith MSG_EMPTY w)) ∧
  (files s ≠ [] →
   (outputWidth s <? 100)%float = true ∨ (2000 <? outputWidth s)%float = true →
     handleMerge_begin ctx s w = (Normal None, rejectedWith MSG_WIDTH w) ∧
     handleMerge decodeImage ctx s w = (Normal tt, rejectedWith MSG_WIDTH w)) ∧
  (∀ msg,
     isLoading (state (rejectedWith msg w)) = isLoading (state w) ∧
     files (state (rejectedWith msg w)) = files (state w) ∧
     error (state (rejectedWith msg w)) = Some msg ∧
     blobStore (rejectedWith msg w) = blobStore w ∧
     effects (rejectedWith msg w) = effects w ++ [CallSetError (Some msg)]) ∧
  MSG_EMPTY ≠ MSG_WIDTH.
Proof.
  split_and!.
  - intros Hfiles. rewrite handleMerge_unfold.
    by rewrite (handleMerge_begin_empty ctx s w Hfiles).
  - intros Hfiles Hwidth. rewrite handleMerge_unfold.
    assert (widthInRange s = false) as Hout.
    { unfold widthInRange. apply negb_false_iff, orb_true_iff. exact Hwidth. }
    by rewrite (handleMerge_begin_width ctx s w Hfiles Hout).
  - done.
  - discriminate.
Qed.

Lemma promisesFrom_rejected (decodeImage : File → option (float * float))
    (url : nat) (fs : list File) :
  (∃ file, file ∈ fs ∧ decodeImage file = None) →
  mapM (settled decodeImage) (promisesFrom url fs) = None.
Proof.
  intros (file & Hin & Hbad). apply mapM_None_2.
  revert url. induction fs as [|other rest IH]; intros url.
  - by apply elem_of_nil in Hin.
  - apply elem_of_cons in Hin as [<-|Hin]; simpl.
    + apply Exists_cons_hd. unfold settled. simpl. by rewrite Hbad.
    + by apply Exists_cons_tl, IH.
Qed.

Lemma acquireLog_no_output (url : nat) (fs : list File) :
  Forall (λ e, producesOutput e = false) (acquireLog url fs).
Proof.
  revert url. induction fs as [|file rest IH]; intros url; constructor;
    [done | apply IH].
Qed.

Lemma no_output_no_draws (evs : list Effect) :
  Forall (λ e, producesOutput e = false) evs → drawCalls evs = [].
Proof.
  induction 1 as [|e evs He _ IH]; [done|].
  unfold drawCalls in *. destruct e; try done; cbn [omap list_omap drawCall]; exact IH.
Qed.

(** C4: a run over a list in which some file does not decode ends with
    the processing-error message set and [isLoading] false; between
    its start and its end it makes no canvas, encoder or download
    call; and the list of files is the one before the run. *)
Theorem handleMerge_decode_failure (decodeImage : File → option (float * float))
    (ctx : bool) (s : AppState) (w : World) :
  files s ≠ [] → widthInRange s = true →
  (∃ file, file ∈ files s ∧ decodeImage file = None) →
  ∃ evs w',
    handleMerge decodeImage ctx s w = (Normal tt, w') ∧
    effects w' = effects w ++ evs ∧
    Forall (λ e, producesOutput e = false) evs ∧
    drawCalls evs = [] ∧
    error (state w') = Some MSG_PROCESSING ∧
    isLoading (state w') = false ∧
    files (state w') = files (state w) ∧
    outputWidth (state w') = outputWidth (state w) ∧
    outputFormat (state w') = outputFormat (state w).
Proof.
  intros Hfiles Hwidth Hbad. rewrite handleMerge_unfold. destruct ctx.
  - rewrite (handleMerge_begin_suspends s w Hfiles Hwidth).
    rewrite handleMerge_resume_rejected by by apply promisesFrom_rejected.
    eexists _, _. split; [reflexivity|]. cbn [effects state].
    split; [by rewrite <- !app_assoc|].
    assert (Forall (λ e, producesOutput e = false)
              ([CallSetIsLoading true; CallSetError None; CreateCanvas] ++
               acquireLog (nextURL w) (files s) ++ failureLog)) as Hquiet.
    { rewrite !Forall_app. split_and!.
      - by repeat constructor.
      - apply acquireLog_no_output.
      - unfold failureLog. by repeat constructor. }
    split_and!; try done. by apply no_output_no_draws.
  - rewrite (handleMerge_begin_no_context s w Hfiles Hwidth).
    eexists _, _. split; [reflexivity|]. cbn [effects state].
    split; [reflexivity|].
    split_and!; try done. unfold failureLog. by repeat constructor.
Qed.





Lemma handleMerge_validation_witness :
  handleMerge sampleDecoder true initialState (worldOf initialState) =
    (Normal tt, rejectedWith MSG_EMPTY (worldOf initialState)) ∧
  handleMerge sampleDecoder true (setOutputWidth 50%float stateABC)
      (worldOf (setOutputWidth 50%float stateABC)) =
    (Normal tt, rejectedWith MSG_WIDTH (worldOf (setOutputWidth 50%float stateABC))).
Proof.
  split.
  - apply (handleMerge_validation sampleDecoder true initialState
             (worldOf initialState)). reflexivity.
  - apply (handleMerge_validation sampleDecoder true
             (setOutputWidth 50%float stateABC)
             (worldOf (setOutputWidth 50%float stateABC))).
    + discriminate.
    + left. reflexivity.
Defined.

Lemma handleMerge_decode_failure_witness :
  ∃ evs w',
    handleMerge sampleDecoder true stateBroken (worldOf stateBroken) = (Normal tt, w') ∧
    effects w' = effects (worldOf stateBroken) ++ evs ∧
    Forall (λ e, producesOutput e = false) evs ∧
    drawCalls evs = [] ∧
    error (state w') = Some MSG_PROCESSING ∧
    isLoading (state w') = false ∧
    files (state w') = files (state (worldOf stateBroken)) ∧
    outputWidth (state w') = outputWidth (state (worldOf stateBroken)) ∧
    outputFormat (state w') = outputFormat (state (worldOf stateBroken)).
Proof.
  apply (handleMerge_decode_failure sampleDecoder true stateBroken (worldOf stateBroken)).
  - discriminate.
  - reflexivity.
  - exists corrupt. split; [|reflexivity].
    apply list_elem_of_further, list_elem_of_here.
Defined.

(** ** Object URLs *)

Lemma acquired_lookup (url : nat) (fs : list File) (store : gmap nat File) (k : nat) :
  acquired url fs store !! k =
  if decide (url ≤ k < url + length fs) then fs !! (k - url) else store !! k.
Proof.
  revert url store. induction fs as [|file rest IH]; intros url store; simpl.
  - case_decide; [lia | done].
  - rewrite IH. destruct (decide (k = url)) as [->|Hne].
    + rewrite lookup_insert_eq, Nat.sub_diag. repeat case_decide; (done || lia).
    + rewrite lookup_insert_ne by done.
      repeat case_decide; try lia; [|done].
      by replace (k - url) with (S (k - S url)) by lia.
Qed.

Lemma released_lookup (imgs : list HTMLImageElement) (store : gmap nat File) (k : nat) :
  released imgs store !! k =
  if decide (k ∈ src <$> imgs) then None else store !! k.
Proof.
  unfold released. revert store. induction imgs as [|img rest IH]; intros store.
  - done.
  - cbn [foldl]. rewrite IH. rewrite fmap_cons.
    destruct (decide (k = src img)) as [->|Hne].
    + rewrite lookup_delete_eq.
      rewrite (decide_True (P := src img ∈ src img :: _)) by apply list_elem_of_here.
      by destruct (decide _).
    + rewrite lookup_delete_ne by done.
      destruct (decide (k ∈ src <$> rest)) as [Hin|Hout].
      * by rewrite decide_True by by apply list_elem_of_further.
      * rewrite decide_False; [done|]. rewrite elem_of_cons. by intros [?|?].
Qed.

Lemma settled_all (decodeImage : File → option (float * float)) (url : nat)
    (fs : list File) (imgs : list HTMLImageElement) :
  mapM (settled decodeImage) (promisesFrom url fs) = Some imgs →
  src <$> imgs = seq url (length fs) ∧
  (λ img, Some (naturalWidth img, naturalHeight img)) <$> imgs = decodeImage <$> fs.
Proof.
  revert url imgs. induction fs as [|file rest IH]; intros url imgs Hall.
  - simpl in Hall. by injection Hall as <-.
  - apply mapM_Some in Hall. simpl in Hall.
    apply Forall2_cons_inv_l in Hall as (img & imgs' & Himg & Hrest & ->).
    apply mapM_Some in Hrest. destruct (IH _ _ Hrest) as [Hsrc Hdims].
    unfold settled in Himg. simpl in Himg.
    destruct (decodeImage file) as [[nw nh]|] eqn:Hdec; [|done].
    simpl in Himg. injection Himg as <-.
    rewrite !fmap_cons, Hsrc, Hdims, Hdec. done.
Qed.

Lemma settled_loads (decodeImage : File → option (float * float)) (url : nat)
    (fs : list File) :
  Forall (λ file, is_Some (decodeImage file)) fs →
  is_Some (mapM (settled decodeImage) (promisesFrom url fs)).
Proof.
  intros Hall. apply mapM_is_Some_2. revert url.
  induction Hall as [|file rest [[nw nh] Hdec] _ IH]; intros url; constructor.
  - unfold settled. simpl. by rewrite Hdec.
  - apply IH.
Qed.

(** On the success path the [forEach] revokes every URL the run
    created: with nothing but the run acting on it, the blob store is
    the one before the run. *)
Lemma acquired_then_released (decodeImage : File → option (float * float))
    (url : nat) (fs : list File) (imgs : list HTMLImageElement)
    (store : gmap nat File) :
  (∀ k, is_Some (store !! k) → k < url) →
  mapM (settled decodeImage) (promisesFrom url fs) = Some imgs →
  released imgs (acquired url fs store) = store.
Proof.
  intros Hfresh Hall. destruct (settled_all _ _ _ _ Hall) as [Hsrc _].
  apply map_eq. intros k. rewrite released_lookup, Hsrc, acquired_lookup.
  destruct (decide (k ∈ seq url (length fs))) as [Hin|Hout].
  - apply elem_of_seq in Hin. destruct (store !! k) eqn:Hk; [|done].
    assert (k < url) by (apply Hfresh; by eexists). lia.
  - rewrite elem_of_seq in Hout. case_decide; [lia | done].
Qed.

(** Whatever the world a suspended run resumes in, it leaves the list
    of files alone. *)
Lemma handleMerge_resume_keeps_files (decodeImage : File → option (float * float))
    (s : AppState) (promises : list PendingImage) (w : World) :
  files (state (handleMerge_resume decodeImage s promises w).2) = files (state w).
Proof.
  destruct (mapM (settled decodeImage) promises) as [imgs|] eqn:Hsettled.
  - by rewrite (handleMerge_resume_loaded _ _ _ imgs).
  - by rewrite handleMerge_resume_rejected.
Qed.

Lemma handleMerge_success_releases (decodeImage : File → option (float * float))
    (s : AppState) (w : World) :
  files s ≠ [] → widthInRange s = true →
  Forall (λ file, is_Some (decodeImage file)) (files s) →
  (∀ k, is_Some (blobStore w !! k) → k < nextURL w) →
  blobStore (handleMerge decodeImage true s w).2 = blobStore w.
Proof.
  intros Hfiles Hwidth Hall Hfresh. rewrite handleMerge_unfold.
  rewrite (handleMerge_begin_suspends s w Hfiles Hwidth).
  destruct (settled_loads decodeImage (nextURL w) (files s) Hall) as [imgs Himgs].
  rewrite (handleMerge_resume_loaded _ _ _ imgs) by done. simpl.
  by apply (acquired_then_released decodeImage).
Qed.

Lemma handleMerge_failure_leaks (decodeImage : File → option (float * float))
    (s : AppState) (w : World) :
  files s ≠ [] → widthInRange s = true →
  (∃ file, file ∈ files s ∧ decodeImage file = None) →
  blobStore (handleMerge decodeImage true s w).2 =
    acquired (nextURL w) (files s) (blobStore w) ∧
  ∀ i file, files s !! i = Some file →
    blobStore (handleMerge decodeImage true s w).2 !! (nextURL w + i) = Some file.
Proof.
  intros Hfiles Hwidth Hbad. rewrite handleMerge_unfold.
  rewrite (handleMerge_begin_suspends s w Hfiles Hwidth).
  rewrite handleMerge_resume_rejected by by apply promisesFrom_rejected.
  simpl. split; [done|]. intros i file Hi.
  pose proof (lookup_lt_Some _ _ _ Hi). rewrite acquired_lookup.
  case_decide; [|lia]. by replace (nextURL w + i - nextURL w) with i by lia.
Qed.

(** C10, at a list of two files of which the second does not decode:
    the run creates an object URL for each of the two, revokes none,
    and ends ([isLoading] false) with both still in the blob store. *)
Theorem handleMerge_failure_keeps_urls :
  blobStore (worldOf stateBroken) = ∅ ∧
  blobStore (handleMerge sampleDecoder true stateBroken (worldOf stateBroken)).2 !! 0
    = Some fileA ∧
  blobStore (handleMerge sampleDecoder true stateBroken (worldOf stateBroken)).2 !! 1
    = Some corrupt ∧
  effects (handleMerge sampleDecoder true stateBroken (worldOf stateBroken)).2 =
    [CallSetIsLoading true; CallSetError None; CreateCanvas;
     CreateObjectURL fileA 0; CreateObjectURL corrupt 1;
     ConsoleError; CallSetError (Some MSG_PROCESSING); CallSetIsLoading false] ∧
  isLoading (state (handleMerge sampleDecoder true stateBroken (worldOf stateBroken)).2)
    = false.
Proof.
  assert (∃ file, file ∈ files stateBroken ∧ sampleDecoder file = None) as Hbad.
  { exists corrupt. split; [|reflexivity].
    apply list_elem_of_further, list_elem_of_here. }
  destruct (handleMerge_failure_leaks sampleDecoder stateBroken (worldOf stateBroken))
    as [_ Hkept]; [done | done | done |].
  split_and!; [done | apply (Hkept 0 fileA eq_refl) | apply (Hkept 1 corrupt eq_refl)
              | reflexivity | reflexivity].
Qed.

(** ** The first scenario of the specification *)


(** C6 as stated does not hold: at width 780 the second image,
    400x400, is scaled to height 780, not 390, and the canvas height
    is not 1170. *)
Lemma scenario_heights_counterexample :
  (scaledHeights_from 780 0 scenarioImages).1 ≠ [390; 390; 390]%float ∧
  (scaledHeights_from 780 0 scenarioImages).2 ≠ 1170%float ∧
  (scaledHeights_from 780 0 scenarioImages).1 !! 1 = Some 780%float.
Proof.
  split_and!.
  - intros Heq.
    apply (f_equal (λ l, match l !! 1 with
                         | Some h => PrimFloat.eqb h 780
                         | None => false
                         end)) in Heq.
    vm_compute in Heq. discriminate.
  - intros Heq. apply (f_equal (PrimFloat.eqb 1560)) in Heq.
    vm_compute in Heq. discriminate.
  - vm_compute. reflexivity.
Qed.

(** C6, amended: images of natural sizes 800x400, 400x400 and 1200x600
    merged at width 780 get the scaled heights 390, 780 and 390, are
    drawn at y = 0, 390 and 1170, and the canvas is 780 x 1560. *)
Theorem scenario_heights :
  scaledHeights_from 780 0 scenarioImages = ([390; 780; 390], 1560)%float ∧
  sampleDecoder <$> files stateABC =
    [Some (800, 400); Some (400, 400); Some (1200, 600)]%float ∧
  outputWidth stateABC = 780%float ∧
  canvasWidths (effects (handleMerge sampleDecoder true stateABC (worldOf stateABC)).2)
    = [780%float] ∧
  canvasHeights (effects (handleMerge sampleDecoder true stateABC (worldOf stateABC)).2)
    = [1560%float] ∧
  drawCalls (effects (handleMerge sampleDecoder true stateABC (worldOf stateABC)).2) =
    [(mkImage 0 800 400, 0, 0, 780, 390);
     (mkImage 1 400 400, 0, 390, 780, 780);
     (mkImage 2 1200 600, 0, 1170, 780, 390)]%float.
Proof. split_and!; vm_compute; reflexivity. Qed.

(** ** Re-entrant calls *)


(** C5 as stated does not hold: with a run suspended ([isLoading]
    true), a further call of [handleMerge] is not rejected: it calls
    [setIsLoading(true)] again, creates three more object URLs and
    suspends as a second run. *)
Lemma handleMerge_reentrant_counterexample :
  isLoading (state worldRunning) = true ∧
  (handleMerge_begin true (state worldRunning) worldRunning).1 =
    Normal (Some [mkPending fileA 3; mkPending fileB 4; mkPending fileC 5]) ∧
  effects (handleMerge_begin true (state worldRunning) worldRunning).2 =
    effects worldRunning ++
    [CallSetIsLoading true; CallSetError None; CreateCanvas;
     CreateObjectURL fileA 3; CreateObjectURL fileB 4; CreateObjectURL fileC 5].
Proof. split_and!; vm_compute; reflexivity. Qed.

Lemma edit_keeps_isLoading (s s' : AppState) :
  edit s s' → isLoading s' = isLoading s.
Proof.
  intros [newFiles s0|index s0|r r' s0 s1 Hsort|parsed s0|v s0]; try done.
  - unfold addFiles, addFiles_on. by case_match.
  - destruct r as [[from|] [to|]];
      try (unfold handleDragSort in Hsort; simpl in Hsort;
           injection Hsort as <- <-; done).
    rewrite handleDragSort_reorder_spec in Hsort.
    destruct (reorder_spec from to (files s0)) as [newFiles|]; [|done].
    simpl in Hsort. by injection Hsort as <- <-.
Qed.

Lemma handleMerge_begin_outcomes (ctx : bool) (s : AppState) (w : World) :
  (∃ msg, handleMerge_begin ctx s w = (Normal None, rejectedWith msg w)) ∨
  (∃ w', handleMerge_begin ctx s w = (Normal None, w') ∧
         isLoading (state w') = false) ∨
  (∃ promises w', handleMerge_begin ctx s w = (Normal (Some promises), w') ∧
                  isLoading (state w') = true).
Proof.
  destruct (decide (files s = [])) as [Hnil|Hfiles].
  { left. exists MSG_EMPTY. by apply handleMerge_begin_empty. }
  destruct (widthInRange s) eqn:Hwidth; cycle 1.
  { left. exists MSG_WIDTH. by apply handleMerge_begin_width. }
  right. destruct ctx.
  - right. eexists _, _. split; [by apply handleMerge_begin_suspends | done].
  - left. eexists. split; [by apply handleMerge_begin_no_context | done].
Qed.

Lemma handleMerge_resume_idle (decodeImage : File → option (float * float))
    (s : AppState) (promises : list PendingImage) (w : World) :
  isLoading (state (handleMerge_resume decodeImage s promises w).2) = false.
Proof.
  destruct (mapM (settled decodeImage) promises) as [imgs|] eqn:Hsettled.
  - by rewrite (handleMerge_resume_loaded _ _ _ imgs).
  - by rewrite handleMerge_resume_rejected.
Qed.

(** With the merge button as the only way into [handleMerge]: either
    no run is in flight and [isLoading] is false, or exactly one is
    and [isLoading] is true. *)
Definition oneRunAtATime (σ : Session) : Prop :=
  inFlight σ = [] ∧ isLoading (state (world σ)) = false ∨
  (∃ run, inFlight σ = [run]) ∧ isLoading (state (world σ)) = true.

Lemma uiStep_oneRunAtATime (decodeImage : File → option (float * float))
    (σ σ' : Session) :
  uiStep decodeImage σ σ' → oneRunAtATime σ → oneRunAtATime σ'.
Proof.
  unfold oneRunAtATime.
  intros [w s' runs Hedit|ctx w w' promises runs Hclick|ctx w w' runs Hclick
         |w s promises earlier later]; cbn [inFlight world].
  - apply edit_keeps_isLoading in Hedit. simpl. by rewrite Hedit.
  - unfold clickMerge_begin, mergeButton_disabled in Hclick.
    destruct (isLoading (state w)) eqn:Hbusy; [done|]. simpl in Hclick.
    destruct (length (files (state w)) =? 0); [done|].
    intros [[-> _]|[_ ?]]; [|done]. right. split; [by eexists|].
    destruct (handleMerge_begin_outcomes ctx (state w) w)
      as [(msg & Hrun)|[(w1 & Hrun & _)|(ps & w1 & Hrun & Hloading)]];
      rewrite Hrun in Hclick; [done | done |].
    by injection Hclick as _ <-.
  - unfold clickMerge_begin, mergeButton_disabled in Hclick.
    destruct (isLoading (state w)) eqn:Hbusy.
    { simpl in Hclick. injection Hclick as <-. by rewrite Hbusy. }
    simpl in Hclick.
    destruct (length (files (state w)) =? 0).
    { injection Hclick as <-. by rewrite Hbusy. }
    intros [[-> _]|[_ ?]]; [|done]. left. split; [done|].
    destruct (handleMerge_begin_outcomes ctx (state w) w)
      as [(msg & Hrun)|[(w1 & Hrun & Hidle)|(ps & w1 & Hrun & _)]];
      rewrite Hrun in Hclick; [| |done].
    + injection Hclick as <-. done.
    + by injection Hclick as <-.
  - intros [[Hnone _]|[[run Hone] _]].
    + by destruct earlier.
    + left. split; [|apply handleMerge_resume_idle].
      destruct earlier as [|run1 earlier]; simpl in Hone.
      * by injection Hone as _ ->.
      * injection Hone as _ Hrest. by destruct earlier.
Qed.

(** C5, amended: at most one merge run started through the merge
    button is in flight at a time. A click on the disabled button does
    nothing, and the button is disabled exactly while [isLoading] is
    true or the list is empty. A click that starts a run leaves
    [isLoading] true, so that further clicks are not delivered. From a
    state with no run in flight, whatever edits, clicks and settled
    runs follow, there is never more than one run in flight, and
    [isLoading] is true exactly while there is one. [handleMerge]
    itself has no guard: its start is the same whatever [isLoading],
    and called directly with files and a width in range it suspends as
    a run, also while another is in flight. *)
Theorem merge_guard_is_the_button :
  (∀ (ctx : bool) (s : AppState) (w : World),
     mergeButton_disabled s = true → clickMerge_begin ctx s w = (Normal None, w)) ∧
  (∀ s : AppState,
     mergeButton_disabled s = true ↔ isLoading s = true ∨ files s = []) ∧
  (∀ (ctx : bool) (w w' : World) (promises : list PendingImage),
     clickMerge_begin ctx (state w) w = (Normal (Some promises), w') →
     isLoading (state w') = true ∧
     mergeButton_disabled (state w') = true ∧
     ∀ ctx', clickMerge_begin ctx' (state w') w' = (Normal None, w')) ∧
  (∀ (decodeImage : File → option (float * float)) (w0 : World) (σ : Session),
     isLoading (state w0) = false →
     rtc (uiStep decodeImage) (mkSession w0 []) σ →
     length (inFlight σ) ≤ 1 ∧
     (inFlight σ ≠ [] ↔ isLoading (state (world σ)) = true)) ∧
  (∀ (ctx : bool) (s : AppState) (b : bool) (w : World),
     handleMerge_begin ctx (setIsLoading b s) w = handleMerge_begin ctx s w) ∧
  (∀ (s : AppState) (w : World),
     files s ≠ [] → widthInRange s = true →
     ∃ w', handleMerge_begin true s w =
             (Normal (Some (promisesFrom (nextURL w) (files s))), w') ∧
           nextURL w' = nextURL w + length (files s)).
Proof.
  assert (∀ (ctx : bool) (s : AppState) (w : World),
            mergeButton_disabled s = true →
            clickMerge_begin ctx s w = (Normal None, w)) as Hblocked.
  { intros ctx s w Hoff. unfold clickMerge_begin. by rewrite Hoff. }
  split_and!.
  - exact Hblocked.
  - intros s. unfold mergeButton_disabled. rewrite orb_true_iff.
    destruct (files s) as [|file rest]; simpl.
    + split; intros _; by right.
    + split; (intros [?|?]; [by left | done]).
  - intros ctx w w' promises Hclick.
    assert (isLoading (state w') = true) as Hloading.
    { unfold clickMerge_begin in Hclick.
      destruct (mergeButton_disabled (state w)); [done|].
      destruct (handleMerge_begin_outcomes ctx (state w) w)
        as [(msg & Hrun)|[(w1 & Hrun & _)|(ps & w1 & Hrun & Hloading)]];
        rewrite Hrun in Hclick; [done | done |].
      by injection Hclick as _ <-. }
    assert (mergeButton_disabled (state w') = true) as Hoff.
    { unfold mergeButton_disabled. by rewrite Hloading. }
    split_and!; [done | done |]. intros ctx'. by apply Hblocked.
  - intros decodeImage w0 σ Hidle Hreach.
    assert (oneRunAtATime σ) as [[Hnone Hfree]|[[run Hone] Hbusy]].
    { revert σ Hreach. apply rtc_ind_r.
      - by left.
      - intros σ1 σ2 _ Hstep IH. by apply (uiStep_oneRunAtATime decodeImage σ1). }
    + rewrite Hnone, Hfree. simpl. split; [lia|]. split; done.
    + rewrite Hone, Hbusy. simpl. split; [lia|]. split; done.
  - done.
  - intros s w Hfiles Hwidth. eexists. split.
    + by apply handleMerge_begin_suspends.
    + done.
Qed.

Lemma merge_guard_is_the_button_witness :
  (clickMerge_begin true (state worldRunning) worldRunning = (Normal None, worldRunning)) ∧
  (length (inFlight (mkSession (onState (handleRemoveFile 1) worldRunning)
                       [(stateABC, promisesFrom 0 (files stateABC))])) ≤ 1 ∧
   (inFlight (mkSession (onState (handleRemoveFile 1) worldRunning)
                [(stateABC, promisesFrom 0 (files stateABC))]) ≠ [] ↔
    isLoading (state (world (mkSession (onState (handleRemoveFile 1) worldRunning)
                               [(stateABC, promisesFrom 0 (files stateABC))]))) = true)) ∧
  ∃ w', handleMerge_begin true (state worldRunning) worldRunning =
          (Normal (Some (promisesFrom (nextURL worldRunning)
                           (files (state worldRunning)))), w') ∧
        nextURL w' = nextURL worldRunning + length (files (state worldRunning)).
Proof.
  destruct merge_guard_is_the_button as (Hblocked & _ & _ & Hone & _ & Hcall).
  split; [|split].
  - apply Hblocked. reflexivity.
  - apply (Hone sampleDecoder (worldOf stateABC)); [reflexivity|].
    apply (rtc_l _ _ (mkSession worldRunning [(stateABC, promisesFrom 0 (files stateABC))])).
    + apply (ui_click_suspends sampleDecoder true (worldOf stateABC)).
      unfold worldRunning, clickMerge_begin. simpl mergeButton_disabled. cbv iota.
      by rewrite (handleMerge_begin_suspends stateABC (worldOf stateABC)).
    + apply rtc_once.
      apply (ui_edit sampleDecoder worldRunning (handleRemoveFile 1 (state worldRunning))).
      apply edit_removeFile.
  - apply Hcall; [discriminate | reflexivity].
Defined.

(** ** Reordering and scale *)





Lemma reorder_spec_fmap {A B} (g : A → B) (from to : nat) (l : list A) :
  reorder_spec from to (g <$> l) = fmap (M := list) g <$> reorder_spec from to l.
Proof.
  unfold reorder_spec. rewrite list_lookup_fmap.
  destruct (l !! from) as [x|]; [|done]. simpl.
  by rewrite fmap_app, fmap_cons, fmap_take, fmap_drop, list_fmap_delete.
Qed.

Lemma zip_fmap_self {A B} (g : A → B) (l : list A) :
  zip l (g <$> l) = (λ x, (x, g x)) <$> l.
Proof.
  induction l as [|x l IH]; [done|].
  rewrite !fmap_cons. cbn [zip_with]. f_equal. exact IH.
Qed.

Lemma drawCalls_app (evs1 evs2 : list Effect) :
  drawCalls (evs1 ++ evs2) = drawCalls evs1 ++ drawCalls evs2.
Proof. apply omap_app. Qed.

Lemma compositeLog_drawnHeights (s : AppState) (imgs : list HTMLImageElement) :
  drawnHeights (compositeLog s imgs) = scaledHeight (outputWidth s) <$> imgs.
Proof.
  unfold drawnHeights, compositeLog.
  rewrite drawCalls_app, drawCalls_app.
  change (drawCalls (exportLog s)) with (@nil (HTMLImageElement * float * float * float * float)).
  rewrite app_nil_r.
  change (drawCalls [CanvasWidth _; CanvasHeight _; FillRectCanvas _ _ _])
    with (@nil (HTMLImageElement * float * float * float * float)).
  rewrite app_nil_l.
  rewrite drawLog_calls_all by by rewrite length_fmap.
  rewrite fmap_imap. apply list_eq. intros i.
  rewrite list_lookup_imap, !list_lookup_fmap.
  by destruct (imgs !! i).
Qed.

Lemma handleMerge_success_log (decodeImage : File → option (float * float))
    (s : AppState) (w : World) :
  files s ≠ [] → widthInRange s = true →
  Forall (λ file, is_Some (decodeImage file)) (files s) →
  ∃ imgs,
    mapM (settled decodeImage) (promisesFrom (nextURL w) (files s)) = Some imgs ∧
    runLog (handleMerge decodeImage true s) w =
      [CallSetIsLoading true; CallSetError None; CreateCanvas] ++
      acquireLog (nextURL w) (files s) ++
      compositeLog s imgs ++ [CallSetIsLoading false].
Proof.
  intros Hfiles Hwidth Hall.
  destruct (settled_loads decodeImage (nextURL w) (files s) Hall) as [imgs Himgs].
  exists imgs. split; [done|]. unfold runLog. rewrite handleMerge_unfold.
  rewrite (handleMerge_begin_suspends s w Hfiles Hwidth).
  rewrite (handleMerge_resume_loaded _ _ _ imgs) by done. cbn [snd effects].
  rewrite <- !app_assoc. by rewrite drop_app_length.
Qed.

Lemma handleMerge_drawnHeights (decodeImage : File → option (float * float))
    (s : AppState) (w : World) :
  files s ≠ [] → widthInRange s = true →
  Forall (λ file, is_Some (decodeImage file)) (files s) →
  drawnHeights (runLog (handleMerge decodeImage true s) w) =
  fileHeight decodeImage (outputWidth s) <$> files s.
Proof.
  intros Hfiles Hwidth Hall.
  destruct (handleMerge_success_log decodeImage s w Hfiles Hwidth Hall)
    as (imgs & Himgs & ->).
  destruct (settled_all _ _ _ _ Himgs) as [_ Hdims].
  unfold drawnHeights. rewrite !drawCalls_app, !fmap_app.
  fold (drawnHeights (compositeLog s imgs)). rewrite compositeLog_drawnHeights.
  rewrite (no_output_no_draws (acquireLog _ _)) by apply acquireLog_no_output.
  simpl. rewrite app_nil_r.
  transitivity ((λ o : option (float * float),
                   match o with
                   | Some (nw, nh) => (nh * (outputWidth s / nw))%float
                   | None => nan
                   end) <$> (decodeImage <$> files s)).
  - rewrite <- Hdims, <- list_fmap_compose. done.
  - rewrite <- list_fmap_compose. apply list_fmap_ext. intros i file _.
    unfold fileHeight, fileScale. simpl. by destruct (decodeImage file) as [[??]|].
Qed.

Lemma handleMerge_rejected_run (decodeImage : File → option (float * float))
    (s : AppState) (w : World) :
  files s ≠ [] → widthInRange s = true →
  (∃ file, file ∈ files s ∧ decodeImage file = None) →
  handleMerge decodeImage true s w =
  (Normal tt,
   mkWorld (setIsLoading false (setError (Some MSG_PROCESSING)
              (setError None (setIsLoading true (state w)))))
           (acquired (nextURL w) (files s) (blobStore w))
           (nextURL w + length (files s))
           (effects w ++ [CallSetIsLoading true; CallSetError None; CreateCanvas] ++
            acquireLog (nextURL w) (files s) ++ failureLog)).
Proof.
  intros Hfiles Hwidth Hbad. rewrite handleMerge_unfold.
  rewrite (handleMerge_begin_suspends s w Hfiles Hwidth).
  rewrite handleMerge_resume_rejected by by apply promisesFrom_rejected.
  cbn [state blobStore nextURL effects]. by rewrite <- !app_assoc.
Qed.

(** A run that is rejected by a validation, or in which a file does
    not decode, draws nothing. *)
Lemma handleMerge_no_draws (decodeImage : File → option (float * float))
    (s : AppState) (w : World) :
  ¬ (widthInRange s = true ∧ Forall (λ file, is_Some (decodeImage file)) (files s)) →
  drawnHeights (runLog (handleMerge decodeImage true s) w) = [].
Proof.
  intros Hfails. unfold runLog.
  destruct (decide (files s = [])) as [Hnil|Hfiles].
  { rewrite handleMerge_unfold, (handleMerge_begin_empty true s w Hnil).
    cbn [snd effects rejectedWith]. by rewrite drop_app_length. }
  destruct (widthInRange s) eqn:Hwidth.
  - assert (∃ file, file ∈ files s ∧ decodeImage file = None) as Hbad.
    { destruct (decide (Forall (λ file, is_Some (decodeImage file)) (files s)))
        as [Hall|Hnot]; [by destruct Hfails|].
      apply not_Forall_Exists, Exists_exists in Hnot as (file & Hin & Hnone).
      exists file. split; [done|]. simpl in Hnone.
      destruct (decodeImage file) as [dims|]; [|done].
      + destruct Hnone. by exists dims.
      + intros file. apply _. }
    rewrite (handleMerge_rejected_run decodeImage s w Hfiles Hwidth Hbad).
    cbn [snd effects]. rewrite drop_app_length.
    unfold drawnHeights. rewrite no_output_no_draws; [done|].
    rewrite !Forall_app. split_and!.
    + by repeat constructor.
    + apply acquireLog_no_output.
    + unfold failureLog. by repeat constructor.
  - rewrite handleMerge_unfold, (handleMerge_begin_width true s w Hfiles Hwidth).
    cbn [snd effects rejectedWith]. by rewrite drop_app_length.
Qed.

(** C8: a drag-and-drop move inside the list leaves the output width
    alone, and the run after it draws every file with the height the
    run before it drew it with: the pairs of file and drawn height are
    the same up to order (no pairs at all when the runs are rejected
    or a file does not decode). When the runs go through, the drawn
    height of a file is its natural height times its own scale factor
    [W / naturalWidth], and the pairs after the move are the pairs
    before it, moved the same way. *)
Theorem reorder_keeps_scale (decodeImage : File → option (float * float))
    (r : DragRefs) (s : AppState) (from to : nat) (w1 w2 : World) :
  dragItem r = Some from → dragOverItem r = Some to →
  from < length (files s) → to < length (files s) →
  ∃ r' s',
    handleDragSort r s = Some (r', s') ∧
    outputWidth s' = outputWidth s ∧
    let W := outputWidth s in
    let before := runLog (handleMerge decodeImage true s) w1 in
    let after := runLog (handleMerge decodeImage true s') w2 in
    zip (files s') (drawnHeights after) ≡ₚ zip (files s) (drawnHeights before) ∧
    (widthInRange s = true →
     Forall (λ file, is_Some (decodeImage file)) (files s) →
       drawnHeights before = fileHeight decodeImage W <$> files s ∧
       drawnHeights after = fileHeight decodeImage W <$> files s' ∧
       reorder_spec from to (zip (files s) (drawnHeights before)) =
         Some (zip (files s') (drawnHeights after))).
Proof.
  intros Hdi Hdoi Hfrom Hto.
  destruct r as [di doi]. simpl in Hdi, Hdoi. subst di doi.
  destruct (reorder_spec_Some from to (files s) Hfrom) as (x & Hx & Hspec).
  destruct (reorder_spec_move from to (files s) _ x Hx Hto Hspec)
    as (_ & _ & Hlen & Hperm).
  set (newFiles := take to (delete from (files s)) ++ x :: drop to (delete from (files s))) in *.
  exists (mkRefs None None), (setFiles (λ _, newFiles) s).
  split; [by rewrite handleDragSort_reorder_spec, Hspec|].
  split; [done|]. intros W before after.
  assert (files s ≠ []) as Hne by (intros Hnil; rewrite Hnil in Hfrom; simpl in Hfrom; lia).
  assert (newFiles ≠ []) as Hne'.
  { intros Hnil. rewrite Hnil in Hlen. simpl in Hlen. lia. }
  assert (widthInRange s = true →
          Forall (λ file, is_Some (decodeImage file)) (files s) →
          drawnHeights before = fileHeight decodeImage W <$> files s ∧
          drawnHeights after = fileHeight decodeImage W <$> newFiles) as Hruns.
  { intros Hwidth Hall. split.
    - by apply handleMerge_drawnHeights.
    - apply (handleMerge_drawnHeights decodeImage (setFiles (λ _, newFiles) s) w2);
        [done | done |]. simpl. by rewrite Hperm. }
  cbn [files setFiles]. split.
  - destruct (decide (widthInRange s = true ∧
                      Forall (λ file, is_Some (decodeImage file)) (files s)))
      as [[Hwidth Hall]|Hfails].
    + destruct (Hruns Hwidth Hall) as [-> ->].
      by rewrite !zip_fmap_self, Hperm.
    + unfold before, after. rewrite !handleMerge_no_draws; [by rewrite !zip_with_nil_r|..].
      * done.
      * simpl. by rewrite Hperm.
  - intros Hwidth Hall. destruct (Hruns Hwidth Hall) as [Hbefore Hafter].
    split_and!; [done | done |].
    by rewrite Hbefore, Hafter, !zip_fmap_self, reorder_spec_fmap, Hspec.
Qed.

Lemma reorder_keeps_scale_witness :
  ∃ r' s',
    handleDragSort (mkRefs (Some 0) (Some 2)) stateABC = Some (r', s') ∧
    outputWidth s' = outputWidth stateABC ∧
    drawnHeights (runLog (handleMerge sampleDecoder true stateABC) (worldOf stateABC)) =
      fileHeight sampleDecoder (outputWidth stateABC) <$> files stateABC ∧
    drawnHeights (runLog (handleMerge sampleDecoder true s') (worldOf stateBCA)) =
      fileHeight sampleDecoder (outputWidth stateABC) <$> files s' ∧
    reorder_spec 0 2
      (zip (files stateABC)
         (drawnHeights (runLog (handleMerge sampleDecoder true stateABC)
                          (worldOf stateABC)))) =
    Some (zip (files s')
            (drawnHeights (runLog (handleMerge sampleDecoder true s')
                             (worldOf stateBCA)))).
Proof.
  destruct (reorder_keeps_scale sampleDecoder (mkRefs (Some 0) (Some 2)) stateABC 0 2
              (worldOf stateABC) (worldOf stateBCA))
    as (r' & s' & Hsort & Hwidth & _ & Hruns);
    [reflexivity | reflexivity | simpl; lia | simpl; lia |].
  exists r', s'. split; [exact Hsort|]. split; [exact Hwidth|].
  apply Hruns; [reflexivity|].
  repeat constructor; by eexists.
Defined.


(** * Further properties *)

(** ** Batches of files *)

Lemma filter_isImageFile_none (l : list File) :
  Forall (λ file, isImageFile file = false) l → List.filter isImageFile l = [].
Proof.
  induction 1 as [|file rest Hfile _ IH]; [done|]. simpl. by rewrite Hfile.
Qed.

Lemma filter_isImageFile_all (l : list File) :
  Forall (λ file, isImageFile file = true) (List.filter isImageFile l).
Proof.
  induction l as [|file rest IH]; simpl; [constructor|].
  destruct (isImageFile file) eqn:Hfile; [by constructor | done].
Qed.

(** X2: a batch without a single image-typed file is dropped in
    silence, also when the list is full: the files stay as they are
    and the error cell is cleared, not set. *)
Theorem addFiles_without_images (s : AppState) (newFiles : list File) :
  length (files s) ≤ 10 →
  Forall (λ file, isImageFile file = false) newFiles →
  files (addFiles newFiles s) = files s ∧
  error (addFiles newFiles s) = None.
Proof.
  intros Hbound Hnone. unfold addFiles.
  rewrite addFiles_on_admitted by (rewrite filter_isImageFile_none by done; simpl; lia).
  rewrite filter_isImageFile_none by done. simpl. by rewrite app_nil_r.
Qed.

Lemma addFiles_without_images_witness :
  files (addFiles [notes; notes] (setError (Some MSG_EMPTY)
           (setFiles (λ _, fileA :: nineImages) initialState))) =
    fileA :: nineImages ∧
  error (addFiles [notes; notes] (setError (Some MSG_EMPTY)
           (setFiles (λ _, fileA :: nineImages) initialState))) = None.
Proof.
  apply (addFiles_without_images
           (setError (Some MSG_EMPTY) (setFiles (λ _, fileA :: nineImages) initialState))
           [notes; notes]).
  - simpl. lia.
  - repeat constructor.
Defined.

(** X3: two batches added one after the other give the state that
    adding them as one batch gives, when together they fit. *)
Theorem addFiles_twice (s : AppState) (first second : list File) :
  length (files s) + length (List.filter isImageFile (first ++ second)) ≤ 10 →
  addFiles second (addFiles first s) = addFiles (first ++ second) s.
Proof.
  rewrite List.filter_app, length_app. intros Hfits. unfold addFiles.
  rewrite (addFiles_on_admitted s s first) by lia.
  rewrite (addFiles_on_admitted s s (first ++ second))
    by (rewrite List.filter_app, length_app; lia).
  rewrite addFiles_on_admitted by (simpl; rewrite length_app; lia).
  rewrite List.filter_app. unfold setFiles, setError. simpl.
  by rewrite app_assoc.
Qed.

Lemma addFiles_twice_witness :
  addFiles [fileC; notes] (addFiles [notes; fileB] (setFiles (λ _, [fileA]) initialState)) =
  addFiles ([notes; fileB] ++ [fileC; notes]) (setFiles (λ _, [fileA]) initialState).
Proof.
  apply (addFiles_twice (setFiles (λ _, [fileA]) initialState) [notes; fileB] [fileC; notes]).
  simpl. lia.
Defined.

(** X4: removing the last position right after one image was added
    gives back the list of before. *)
Theorem addFiles_then_remove (s : AppState) (file : File) :
  isImageFile file = true → length (files s) < 10 →
  files (handleRemoveFile (length (files s)) (addFiles [file] s)) = files s.
Proof.
  intros Himage Hroom. unfold addFiles.
  rewrite addFiles_on_admitted by (simpl; rewrite Himage; simpl; lia).
  unfold handleRemoveFile. simpl. rewrite Himage, filter_indexed_skip.
  case_decide; [|lia]. rewrite Nat.sub_0_r.
  rewrite (delete_middle (files s) [] file). apply app_nil_r.
Qed.

Lemma addFiles_then_remove_witness :
  files (handleRemoveFile (length (files stateABC)) (addFiles [fileB] stateABC)) =
  files stateABC.
Proof.
  apply (addFiles_then_remove stateABC fileB); [reflexivity | simpl; lia].
Defined.

(** ** Drag and drop *)

Section Moves.
Context {A : Type}.
Implicit Types (l : list A) (x : A).

Lemma reorder_spec_Permutation (from to : nat) l l' :
  reorder_spec from to l = Some l' → l' ≡ₚ l.
Proof.
  unfold reorder_spec. destruct (l !! from) as [x|] eqn:Hx; [|done].
  simpl. intros [= <-].
  by rewrite <- Permutation_middle, take_drop, <- delete_Permutation.
Qed.

Lemma take_drop_delete (from : nat) l x :
  l !! from = Some x →
  take from (delete from l) ++ x :: drop from (delete from l) = l.
Proof.
  intros Hx. pose proof (lookup_lt_Some _ _ _ Hx) as Hlt.
  rewrite delete_take_drop.
  rewrite take_app_length' by (rewrite length_take; lia).
  rewrite drop_app_length' by (rewrite length_take; lia).
  by apply take_drop_middle.
Qed.

Lemma reorder_spec_inverse (from to : nat) l l' :
  to < length l →
  reorder_spec from to l = Some l' → reorder_spec to from l' = Some l.
Proof.
  intros Hto Hmove.
  destruct (l !! from) as [x|] eqn:Hx;
    [|unfold reorder_spec in Hmove; by rewrite Hx in Hmove].
  destruct (reorder_spec_move from to l l' x Hx Hto Hmove) as (Hat & Hdel & _ & _).
  unfold reorder_spec. rewrite Hat. simpl. rewrite Hdel.
  by rewrite take_drop_delete.
Qed.

Lemma reorder_spec_same (from : nat) l :
  from < length l → reorder_spec from from l = Some l.
Proof.
  intros Hlt. destruct (lookup_lt_is_Some_2 l from Hlt) as [x Hx].
  unfold reorder_spec. rewrite Hx. simpl. by rewrite take_drop_delete.
Qed.

Lemma reorder_spec_to_end (from to : nat) l x :
  l !! from = Some x → length l - 1 ≤ to →
  reorder_spec from to l = Some (delete from l ++ [x]).
Proof.
  intros Hx Hto. unfold reorder_spec. rewrite Hx. simpl.
  assert (length (delete from l) ≤ to).
  { rewrite length_delete by by eexists. lia. }
  by rewrite take_ge, drop_ge by lia.
Qed.

End Moves.

Lemma setFiles_same (s : AppState) : setFiles (λ _, files s) s = s.
Proof. by destruct s. Qed.

Lemma dragGesture_refs (index : nat) (entered : list nat) (r : DragRefs) :
  foldl (λ r j, onDragEnter j r) (onDragStart index r) entered =
  mkRefs (Some index)
         (match last entered with Some j => Some j | None => dragOverItem r end).
Proof.
  induction entered as [|j entered IH] using rev_ind; [done|].
  rewrite foldl_snoc, IH, last_snoc. done.
Qed.

(** X5: a drag that starts on a rendered item never loses, duplicates
    or adds a file, whatever items it passes over and whatever the
    two refs held before: the files afterwards are a permutation of
    the files before and the other cells are untouched. The dragged
    item goes where it was last dragged over; a drag that enters no
    item, with no position left over from before, changes nothing. *)
Theorem dragGesture_keeps_files (r : DragRefs) (s : AppState) (index : nat)
    (entered : list nat) :
  index < length (files s) →
  ∃ r' s',
    dragGesture index entered r s = Some (r', s') ∧
    files s' ≡ₚ files s ∧
    outputWidth s' = outputWidth s ∧ outputFormat s' = outputFormat s ∧
    isLoading s' = isLoading s ∧ error s' = error s ∧
    (∀ j, last entered = Some j →
       r' = mkRefs None None ∧ reorder_spec index j (files s) = Some (files s')) ∧
    (last entered = None → dragOverItem r = None → s' = s).
Proof.
  intros Hindex. unfold dragGesture. rewrite dragGesture_refs.
  set (over := match last entered with Some j => Some j | None => dragOverItem r end).
  destruct over as [j|] eqn:Hover.
  - rewrite handleDragSort_reorder_spec.
    destruct (reorder_spec_Some index j (files s) Hindex) as (x & Hx & Hspec).
    rewrite Hspec. eexists _, _. split; [reflexivity|]. simpl.
    split_and!; try done.
    + by apply (reorder_spec_Permutation index j).
    + intros j' Hlast. unfold over in Hover. rewrite Hlast in Hover.
      by injection Hover as ->.
    + intros Hlast Hnone. unfold over in Hover. rewrite Hlast, Hnone in Hover. done.
  - exists (mkRefs (Some index) None), s. split_and!; try done.
    intros j Hlast. unfold over in Hover. by rewrite Hlast in Hover.
Qed.

Lemma dragGesture_keeps_files_witness :
  ∃ r' s',
    dragGesture 0 [0; 1; 2] (mkRefs None (Some 7)) stateABC = Some (r', s') ∧
    files s' ≡ₚ files stateABC ∧
    r' = mkRefs None None ∧
    reorder_spec 0 2 (files stateABC) = Some (files s').
Proof.
  destruct (dragGesture_keeps_files (mkRefs None (Some 7)) stateABC 0 [0; 1; 2])
    as (r' & s' & Hrun & Hperm & _ & _ & _ & _ & Hlast & _); [simpl; lia|].
  exists r', s'. destruct (Hlast 2 eq_refl) as [Hrefs Hmove]. done.
Defined.

(** X6: a move is undone by the opposite move, and dropping an item
    on itself leaves the state as it is. *)
Theorem handleDragSort_undo (s : AppState) (from to : nat) :
  from < length (files s) → to < length (files s) →
  ∃ s1,
    handleDragSort (mkRefs (Some from) (Some to)) s = Some (mkRefs None None, s1) ∧
    handleDragSort (mkRefs (Some to) (Some from)) s1 = Some (mkRefs None None, s) ∧
    (from = to → s1 = s).
Proof.
  intros Hfrom Hto.
  destruct (reorder_spec_Some from to (files s) Hfrom) as (x & Hx & Hspec).
  eexists. split; [by rewrite handleDragSort_reorder_spec, Hspec|].
  split.
  - rewrite handleDragSort_reorder_spec. simpl.
    rewrite (reorder_spec_inverse from to (files s)) by done. simpl.
    do 2 f_equal. by destruct s.
  - intros <-. rewrite (reorder_spec_same from (files s) Hfrom) in Hspec.
    injection Hspec as <-. by destruct s.
Qed.

Lemma handleDragSort_undo_witness :
  ∃ s1,
    handleDragSort (mkRefs (Some 0) (Some 2)) stateABC = Some (mkRefs None None, s1) ∧
    handleDragSort (mkRefs (Some 2) (Some 0)) s1 = Some (mkRefs None None, stateABC) ∧
    (0 = 2 → s1 = stateABC).
Proof.
  apply (handleDragSort_undo stateABC 0 2); simpl; lia.
Defined.

(** X7: what [handleDragSort] does at the edges. With either ref null
    it returns at once and keeps both refs. A target position at or
    past the last one puts the item last. A source position past the
    end takes nothing out, so that [undefined] would be stored in the
    list. *)
Theorem handleDragSort_bounds (r : DragRefs) (s : AppState) :
  (dragItem r = None ∨ dragOverItem r = None → handleDragSort r s = Some (r, s)) ∧
  (∀ from to x,
     dragItem r = Some from → dragOverItem r = Some to →
     files s !! from = Some x → length (files s) - 1 ≤ to →
     handleDragSort r s =
       Some (mkRefs None None, setFiles (λ _, delete from (files s) ++ [x]) s)) ∧
  (∀ from to,
     dragItem r = Some from → dragOverItem r = Some to →
     length (files s) ≤ from →
     handleDragSort r s = None).
Proof.
  destruct r as [di doi]. simpl. split_and!.
  - intros [->| ->]; unfold handleDragSort; simpl; [done|]. by destruct di.
  - intros from to x -> -> Hx Hto. rewrite handleDragSort_reorder_spec.
    by rewrite (reorder_spec_to_end from to (files s) x).
  - intros from to -> -> Hfrom. rewrite handleDragSort_reorder_spec.
    by rewrite reorder_spec_None.
Qed.

Lemma handleDragSort_bounds_witness :
  handleDragSort (mkRefs (Some 1) None) stateABC = Some (mkRefs (Some 1) None, stateABC) ∧
  handleDragSort (mkRefs (Some 0) (Some 9)) stateABC =
    Some (mkRefs None None, setFiles (λ _, [fileB; fileC; fileA]) stateABC) ∧
  handleDragSort (mkRefs (Some 3) (Some 0)) stateABC = None.
Proof.
  split_and!.
  - apply (handleDragSort_bounds (mkRefs (Some 1) None) stateABC). by right.
  - apply (proj1 (proj2 (handleDragSort_bounds (mkRefs (Some 0) (Some 9)) stateABC))
             0 9 fileA); [reflexivity | reflexivity | reflexivity | simpl; lia].
  - apply (proj2 (proj2 (handleDragSort_bounds (mkRefs (Some 3) (Some 0)) stateABC))
             3 0); [reflexivity | reflexivity | simpl; lia].
Defined.

(** ** Every way a merge run can end *)

Lemma handleMerge_merged_run (decodeImage : File → option (float * float))
    (s : AppState) (imgs : list HTMLImageElement) (w : World) :
  files s ≠ [] → widthInRange s = true →
  mapM (settled decodeImage) (promisesFrom (nextURL w) (files s)) = Some imgs →
  handleMerge decodeImage true s w = (Normal tt, mergedWorld s imgs w).
Proof.
  intros Hfiles Hwidth Himgs. rewrite handleMerge_unfold.
  rewrite (handleMerge_begin_suspends s w Hfiles Hwidth).
  rewrite (handleMerge_resume_loaded _ _ _ imgs) by done.
  unfold mergedWorld. cbn [state blobStore nextURL effects].
  by rewrite <- !app_assoc.
Qed.

Lemma promisesFrom_files (url : nat) (fs : list File) (p : PendingImage) :
  p ∈ promisesFrom url fs → pending_file p ∈ fs.
Proof.
  revert url. induction fs as [|file rest IH]; intros url Hp; simpl in Hp.
  - by apply elem_of_nil in Hp.
  - apply elem_of_cons in Hp as [->|Hp]; [apply list_elem_of_here|].
    apply list_elem_of_further. by apply (IH (S url)).
Qed.

Lemma promisesFrom_rejected_inv (decodeImage : File → option (float * float))
    (url : nat) (fs : list File) :
  mapM (settled decodeImage) (promisesFrom url fs) = None →
  ∃ file, file ∈ fs ∧ decodeImage file = None.
Proof.
  intros Hnone. apply mapM_None_1, Exists_exists in Hnone as (p & Hp & Hnone).
  exists (pending_file p). split; [by apply (promisesFrom_files url)|].
  unfold settled in Hnone. by destruct (decodeImage (pending_file p)) as [[??]|].
Qed.

Lemma handleMerge_outcomes (decodeImage : File → option (float * float)) (ctx : bool)
    (s : AppState) (w : World) :
  (files s = [] ∧
   handleMerge decodeImage ctx s w = (Normal tt, rejectedWith MSG_EMPTY w)) ∨
  (files s ≠ [] ∧ widthInRange s = false ∧
   handleMerge decodeImage ctx s w = (Normal tt, rejectedWith MSG_WIDTH w)) ∨
  (files s ≠ [] ∧ widthInRange s = true ∧ ctx = false ∧
   handleMerge decodeImage ctx s w = (Normal tt, noContextWorld w)) ∨
  (files s ≠ [] ∧ widthInRange s = true ∧ ctx = true ∧
   (∃ file, file ∈ files s ∧ decodeImage file = None) ∧
   handleMerge decodeImage ctx s w = (Normal tt, failedWorld s w)) ∨
  (files s ≠ [] ∧ widthInRange s = true ∧ ctx = true ∧
   ∃ imgs,
     mapM (settled decodeImage) (promisesFrom (nextURL w) (files s)) = Some imgs ∧
     handleMerge decodeImage ctx s w = (Normal tt, mergedWorld s imgs w)).
Proof.
  destruct (decide (files s = [])) as [Hnil|Hfiles].
  { left. split; [done|]. rewrite handleMerge_unfold.
    by rewrite (handleMerge_begin_empty ctx s w Hnil). }
  right. destruct (widthInRange s) eqn:Hwidth; cycle 1.
  { left. split_and!; try done. rewrite handleMerge_unfold.
    by rewrite (handleMerge_begin_width ctx s w Hfiles Hwidth). }
  right. destruct ctx.
  - right.
    destruct (mapM (settled decodeImage) (promisesFrom (nextURL w) (files s)))
      as [imgs|] eqn:Himgs.
    + right. split_and!; try done. exists imgs. split; [done|].
      by apply handleMerge_merged_run.
    + assert (∃ file, file ∈ files s ∧ decodeImage file = None) as Hbad
        by by apply (promisesFrom_rejected_inv decodeImage (nextURL w)).
      left. split_and!; try done. by apply handleMerge_rejected_run.
  - left. split_and!; try done. rewrite handleMerge_unfold.
    by rewrite (handleMerge_begin_no_context s w Hfiles Hwidth).
Qed.

(** X8: a run of [handleMerge], however it ends, completes without a
    throw reaching the caller, leaves the files, the output width and
    the format as they are and never moves the supply of URLs back.
    Once it has passed the two validations it ends with [isLoading]
    false; a run rejected by a validation leaves [isLoading] as it
    was and sets an error. *)
Theorem handleMerge_always_returns (decodeImage : File → option (float * float))
    (ctx : bool) (s : AppState) (w : World) :
  ∃ w',
    handleMerge decodeImage ctx s w = (Normal tt, w') ∧
    files (state w') = files (state w) ∧
    outputWidth (state w') = outputWidth (state w) ∧
    outputFormat (state w') = outputFormat (state w) ∧
    nextURL w ≤ nextURL w' ∧
    (files s ≠ [] ∧ widthInRange s = true ∧ isLoading (state w') = false ∨
     (files s = [] ∨ widthInRange s = false) ∧
     isLoading (state w') = isLoading (state w) ∧ is_Some (error (state w'))).
Proof.
  destruct (handleMerge_outcomes decodeImage ctx s w)
    as [(Hnil & ->)|[(Hfiles & Hwidth & ->)|[(Hfiles & Hwidth & _ & ->)|
        [(Hfiles & Hwidth & _ & _ & ->)|(Hfiles & Hwidth & _ & imgs & _ & ->)]]]];
    eexists; (split; [reflexivity|]); simpl; split_and!; try done; try lia.
  - right. split_and!; [by left | done | by eexists].
  - right. split_and!; [by right | done | by eexists].
  - by left.
  - by left.
  - by left.
Qed.

(** ** Invariants of the component *)

Lemma handleMerge_begin_frame (ctx : bool) (s : AppState) (w : World) :
  files (state (handleMerge_begin ctx s w).2) = files (state w) ∧
  outputWidth (state (handleMerge_begin ctx s w).2) = outputWidth (state w) ∧
  outputFormat (state (handleMerge_begin ctx s w).2) = outputFormat (state w).
Proof.
  destruct (decide (files s = [])) as [Hnil|Hfiles].
  { by rewrite (handleMerge_begin_empty ctx s w Hnil). }
  destruct (widthInRange s) eqn:Hwidth; cycle 1.
  { by rewrite (handleMerge_begin_width ctx s w Hfiles Hwidth). }
  destruct ctx.
  - by rewrite (handleMerge_begin_suspends s w Hfiles Hwidth).
  - by rewrite (handleMerge_begin_no_context s w Hfiles Hwidth).
Qed.

Lemma handleMerge_resume_frame (decodeImage : File → option (float * float))
    (s : AppState) (promises : list PendingImage) (w : World) :
  files (state (handleMerge_resume decodeImage s promises w).2) = files (state w) ∧
  outputWidth (state (handleMerge_resume decodeImage s promises w).2) =
    outputWidth (state w) ∧
  outputFormat (state (handleMerge_resume decodeImage s promises w).2) =
    outputFormat (state w).
Proof.
  destruct (mapM (settled decodeImage) promises) as [imgs|] eqn:Hsettled.
  - by rewrite (handleMerge_resume_loaded _ _ _ imgs).
  - by rewrite handleMerge_resume_rejected.
Qed.

Lemma edit_workingSetOk (s s' : AppState) :
  edit s s' → workingSetOk s → workingSetOk s'.
Proof.
  intros Hedit. unfold workingSetOk.
  destruct Hedit as [newFiles s|index s|r r' s s' Hsort|parsed s|v s];
    intros (Hbound & Himages & Hwidth).
  - unfold addFiles.
    destruct (decide (length (files s) + length (List.filter isImageFile newFiles) ≤ 10)).
    + rewrite addFiles_on_admitted by done. simpl. split_and!; [|  |done].
      * by rewrite length_app.
      * apply Forall_app. split; [done | apply filter_isImageFile_all].
    + by rewrite addFiles_on_rejected by lia.
  - unfold handleRemoveFile. simpl. rewrite filter_indexed_skip.
    case_decide; [|lia]. rewrite Nat.sub_0_r. split_and!; [|by apply Forall_delete|done].
    destruct (decide (index < length (files s))).
    + rewrite length_delete by by apply lookup_lt_is_Some_2. lia.
    + by rewrite delete_take_drop, take_ge, drop_ge, app_nil_r by lia.
  - destruct r as [[from|] [to|]];
      try (unfold handleDragSort in Hsort; simpl in Hsort;
           injection Hsort as <- <-; done).
    rewrite handleDragSort_reorder_spec in Hsort.
    destruct (reorder_spec from to (files s)) as [newFiles|] eqn:Hmove; [|done].
    simpl in Hsort. injection Hsort as <- <-. simpl.
    apply reorder_spec_Permutation in Hmove. by rewrite Hmove.
  - split_and!; [done | done | apply handleWidthChange_number].
  - done.
Qed.

Lemma step_workingSetOk (s s' : AppState) :
  step s s' → workingSetOk s → workingSetOk s'.
Proof.
  intros Hstep. unfold workingSetOk.
  destruct Hstep as [s s' Hedit|ctx s w|decodeImage s promises w].
  - by apply edit_workingSetOk.
  - destruct (handleMerge_begin_frame ctx s w) as (-> & -> & _). done.
  - destruct (handleMerge_resume_frame decodeImage s promises w) as (-> & -> & _). done.
Qed.

(** X1: in every state the component reaches from its initial one,
    with each handler run on the state as rendered, there are at most
    10 files, every one of them is image-typed, and the output width
    is a number (not NaN). The states reached include those with a
    merge run suspended at its [await]: edits and further runs may
    come between the start of a run and its end, and a run may end on
    a state other than the one it started on. *)
Theorem reachable_workingSetOk (s : AppState) :
  rtc step initialState s → workingSetOk s.
Proof.
  revert s. apply rtc_ind_r.
  - unfold workingSetOk. simpl. split_and!; [lia | constructor | reflexivity].
  - intros s1 s2 _ Hstep IH. by apply (step_workingSetOk s1).
Qed.

Lemma reachable_workingSetOk_witness :
  isLoading (state (onState (handleRemoveFile 0) worldRunning)) = true ∧
  workingSetOk
    (state (handleMerge_resume sampleDecoder stateABC (promisesFrom 0 (files stateABC))
              (onState (handleRemoveFile 0) worldRunning)).2).
Proof.
  split; [reflexivity|].
  apply reachable_workingSetOk.
  apply (rtc_l step _ stateABC).
  { apply step_edit, (edit_addFiles [fileA; notes; fileB; fileC] initialState). }
  apply (rtc_l step _ (state worldRunning)).
  { apply (step_mergeBegin true stateABC (worldOf stateABC)). }
  apply (rtc_l step _ (state (onState (handleRemoveFile 0) worldRunning))).
  { apply step_edit, (edit_removeFile 0 (state worldRunning)). }
  apply rtc_once.
  apply (step_mergeResume sampleDecoder stateABC (promisesFrom 0 (files stateABC))
           (onState (handleRemoveFile 0) worldRunning)).
Defined.


(** X13: when the canvas gives no 2d context the run fails before it
    loads anything: no object URL is created, the blob store is
    untouched, nothing is drawn or exported, the processing-error
    message is set and [isLoading] is false again. *)
Theorem handleMerge_without_context (decodeImage : File → option (float * float))
    (s : AppState) (w : World) :
  files s ≠ [] → widthInRange s = true →
  ∃ w',
    handleMerge decodeImage false s w = (Normal tt, w') ∧
    blobStore w' = blobStore w ∧ nextURL w' = nextURL w ∧
    createdURLs (runLog (handleMerge decodeImage false s) w) = [] ∧
    Forall (λ e, producesOutput e = false) (runLog (handleMerge decodeImage false s) w) ∧
    error (state w') = Some MSG_PROCESSING ∧
    isLoading (state w') = false.
Proof.
  intros Hfiles Hwidth. unfold runLog. rewrite handleMerge_unfold.
  rewrite (handleMerge_begin_no_context s w Hfiles Hwidth).
  eexists. split; [reflexivity|]. cbn [snd effects blobStore nextURL state].
  rewrite drop_app_length. split_and!; try done.
  unfold failureLog. by repeat constructor.
Qed.

Lemma handleMerge_without_context_witness :
  ∃ w',
    handleMerge sampleDecoder false stateABC (worldOf stateABC) = (Normal tt, w') ∧
    blobStore w' = blobStore (worldOf stateABC) ∧
    nextURL w' = nextURL (worldOf stateABC) ∧
    createdURLs (runLog (handleMerge sampleDecoder false stateABC) (worldOf stateABC)) = [] ∧
    Forall (λ e, producesOutput e = false)
      (runLog (handleMerge sampleDecoder false stateABC) (worldOf stateABC)) ∧
    error (state w') = Some MSG_PROCESSING ∧
    isLoading (state w') = false.
Proof.
  apply (handleMerge_without_context sampleDecoder stateABC (worldOf stateABC));
    [discriminate | reflexivity].
Defined.

(** X17: emptying the width field, or typing text that is no number
    or a zero, stores the width 0, and a merge triggered then is
    rejected with the width message (with files present). *)
Theorem cleared_width_rejects (decodeImage : File → option (float * float))
    (ctx : bool) (s : AppState) (parsed : float) (w : World) :
  files s ≠ [] →
  is_nan parsed = true ∨ is_zero parsed = true →
  outputWidth (handleWidthChange parsed s) = 0%float ∧
  handleMerge decodeImage ctx (handleWidthChange parsed s) w =
    (Normal tt, rejectedWith MSG_WIDTH w).
Proof.
  intros Hfiles Hparsed.
  assert (orZero parsed = 0%float) as Hzero.
  { unfold orZero. destruct Hparsed as [-> | ->]; [done|]. by rewrite orb_true_r. }
  split; [exact Hzero|]. rewrite handleMerge_unfold.
  rewrite handleMerge_begin_width; [done | done |].
  unfold widthInRange, handleWidthChange. simpl. by rewrite Hzero.
Qed.

Lemma cleared_width_rejects_witness :
  outputWidth (handleWidthChange nan stateABC) = 0%float ∧
  handleMerge sampleDecoder true (handleWidthChange nan stateABC) (worldOf stateABC) =
    (Normal tt, rejectedWith MSG_WIDTH (worldOf stateABC)).
Proof.
  apply (cleared_width_rejects sampleDecoder true stateABC nan (worldOf stateABC)).
  - discriminate.
  - left. reflexivity.
Defined.

(** ** Successful runs *)

Lemma createdURLs_app (evs1 evs2 : list Effect) :
  createdURLs (evs1 ++ evs2) = createdURLs evs1 ++ createdURLs evs2.
Proof. apply omap_app. Qed.

Lemma revokedURLs_app (evs1 evs2 : list Effect) :
  revokedURLs (evs1 ++ evs2) = revokedURLs evs1 ++ revokedURLs evs2.
Proof. apply omap_app. Qed.

Lemma acquireLog_urls (url : nat) (fs : list File) :
  createdURLs (acquireLog url fs) = seq url (length fs) ∧
  revokedURLs (acquireLog url fs) = [].
Proof.
  revert url. induction fs as [|file rest IH]; intros url; [done|].
  destruct (IH (S url)) as [Hcreated Hrevoked]. split.
  - change (createdURLs (acquireLog url (file :: rest)))
      with (url :: createdURLs (acquireLog (S url) rest)).
    by rewrite Hcreated.
  - exact Hrevoked.
Qed.

Lemma drawLog_urls (W : float) (hs : list float) (index : nat) (y : float)
    (imgs : list HTMLImageElement) :
  createdURLs (drawLog W hs index y imgs) = [] ∧
  revokedURLs (drawLog W hs index y imgs) = src <$> imgs.
Proof.
  revert index y. induction imgs as [|img rest IH]; intros index y; [done|].
  destruct (IH (S index) (y + default nan (hs !! index))%float) as [Hcreated Hrevoked].
  split.
  - exact Hcreated.
  - change (revokedURLs (drawLog W hs index y (img :: rest)))
      with (src img :: revokedURLs (drawLog W hs (S index)
                                      (y + default nan (hs !! index))%float rest)).
    by rewrite Hrevoked.
Qed.

Lemma compositeLog_urls (s : AppState) (imgs : list HTMLImageElement) :
  createdURLs (compositeLog s imgs) = [] ∧
  revokedURLs (compositeLog s imgs) = src <$> imgs.
Proof.
  unfold compositeLog.
  destruct (drawLog_urls (outputWidth s) (scaledHeight (outputWidth s) <$> imgs)
              0 0%float imgs) as [Hcreated Hrevoked].
  split.
  - rewrite !createdURLs_app, Hcreated. done.
  - rewrite !revokedURLs_app, Hrevoked. simpl. by rewrite app_nil_r.
Qed.

Lemma compositeLog_drawCalls (s : AppState) (imgs : list HTMLImageElement) :
  drawCalls (compositeLog s imgs) =
  imap (λ i img, (img, 0%float,
                  fsum (take i (scaledHeight (outputWidth s) <$> imgs)),
                  outputWidth s, scaledHeight (outputWidth s) img)) imgs.
Proof.
  unfold compositeLog. rewrite !drawCalls_app.
  change (drawCalls (exportLog s))
    with (@nil (HTMLImageElement * float * float * float * float)).
  rewrite app_nil_r.
  change (drawCalls [CanvasWidth _; CanvasHeight _; FillRectCanvas _ _ _])
    with (@nil (HTMLImageElement * float * float * float * float)).
  rewrite app_nil_l, drawLog_calls_all by by rewrite length_fmap.
  apply imap_ext. intros i img Himg. simpl.
  by rewrite list_lookup_fmap, Himg.
Qed.

Lemma handleMerge_merged_log (decodeImage : File → option (float * float))
    (s : AppState) (imgs : list HTMLImageElement) (w : World) :
  files s ≠ [] → widthInRange s = true →
  mapM (settled decodeImage) (promisesFrom (nextURL w) (files s)) = Some imgs →
  runLog (handleMerge decodeImage true s) w =
    [CallSetIsLoading true; CallSetError None; CreateCanvas] ++
    acquireLog (nextURL w) (files s) ++
    compositeLog s imgs ++ [CallSetIsLoading false].
Proof.
  intros Hfiles Hwidth Himgs. unfold runLog.
  rewrite (handleMerge_merged_run decodeImage s imgs w) by done.
  cbn [snd effects mergedWorld]. by rewrite drop_app_length.
Qed.

Lemma handleMerge_merged_drawCalls (decodeImage : File → option (float * float))
    (s : AppState) (imgs : list HTMLImageElement) (w : World) :
  files s ≠ [] → widthInRange s = true →
  mapM (settled decodeImage) (promisesFrom (nextURL w) (files s)) = Some imgs →
  drawCalls (runLog (handleMerge decodeImage true s) w) =
  drawCalls (compositeLog s imgs).
Proof.
  intros Hfiles Hwidth Himgs.
  rewrite (handleMerge_merged_log decodeImage s imgs w) by done.
  rewrite !drawCalls_app.
  rewrite (no_output_no_draws (acquireLog _ _)) by apply acquireLog_no_output.
  simpl. by rewrite app_nil_r.
Qed.

Lemma promisesFrom_srcs (url : nat) (fs : list File) :
  pending_src <$> promisesFrom url fs = seq url (length fs).
Proof.
  revert url. induction fs as [|file rest IH]; intros url; [done|].
  simpl. by rewrite <- IH.
Qed.

(** X9: a run over decodable files, with a width in range and a 2d
    context. Up to its [await] it clears the error cell, sets
    [isLoading] and creates one object URL per file. From the [await]
    on, in whatever world it resumes, it does not touch the error
    cell, ends with [isLoading] false, creates no URL, revokes each
    URL it created, in the order of creation, so that none of them is
    left in the blob store, and draws as many images as there are
    files. *)
Theorem handleMerge_success (decodeImage : File → option (float * float))
    (s : AppState) (w : World) :
  files s ≠ [] → widthInRange s = true →
  Forall (λ file, is_Some (decodeImage file)) (files s) →
  ∃ promises w1,
    handleMerge_begin true s w = (Normal (Some promises), w1) ∧
    error (state w1) = None ∧ isLoading (state w1) = true ∧
    createdURLs (runLog (handleMerge_begin true s) w) =
      seq (nextURL w) (length (files s)) ∧
    pending_src <$> promises = seq (nextURL w) (length (files s)) ∧
    ∀ w2 : World,
      error (state (handleMerge_resume decodeImage s promises w2).2) = error (state w2) ∧
      isLoading (state (handleMerge_resume decodeImage s promises w2).2) = false ∧
      createdURLs (runLog (handleMerge_resume decodeImage s promises) w2) = [] ∧
      revokedURLs (runLog (handleMerge_resume decodeImage s promises) w2) =
        seq (nextURL w) (length (files s)) ∧
      length (drawCalls (runLog (handleMerge_resume decodeImage s promises) w2)) =
        length (files s) ∧
      ∀ url, nextURL w ≤ url < nextURL w + length (files s) →
        blobStore (handleMerge_resume decodeImage s promises w2).2 !! url = None.
Proof.
  intros Hfiles Hwidth Hall.
  destruct (settled_loads decodeImage (nextURL w) (files s) Hall) as [imgs Himgs].
  destruct (settled_all _ _ _ _ Himgs) as [Hsrc _].
  destruct (acquireLog_urls (nextURL w) (files s)) as [Hacq_c _].
  destruct (compositeLog_urls s imgs) as [Hcomp_c Hcomp_r].
  eexists _, _. split; [by apply handleMerge_begin_suspends|].
  unfold runLog at 1. rewrite (handleMerge_begin_suspends s w Hfiles Hwidth).
  cbn [snd effects state]. rewrite drop_app_length.
  split_and!; try done.
  - apply promisesFrom_srcs.
  - intros w2. unfold runLog.
    rewrite (handleMerge_resume_loaded _ _ _ imgs) by done.
    cbn [snd effects state blobStore]. rewrite drop_app_length.
    split_and!; try done.
    + rewrite createdURLs_app, Hcomp_c. done.
    + rewrite revokedURLs_app, Hcomp_r, Hsrc. simpl. by rewrite app_nil_r.
    + rewrite drawCalls_app, compositeLog_drawCalls, length_app, length_imap. simpl.
      rewrite Nat.add_0_r. by rewrite <- (length_fmap src), Hsrc, length_seq.
    + intros url Hown. rewrite released_lookup, Hsrc.
      rewrite decide_True; [done|]. by apply elem_of_seq.
Qed.

Lemma handleMerge_success_witness :
  ∃ promises w1,
    handleMerge_begin true stateABC (worldOf stateABC) = (Normal (Some promises), w1) ∧
    error (state w1) = None ∧ isLoading (state w1) = true ∧
    createdURLs (runLog (handleMerge_begin true stateABC) (worldOf stateABC)) =
      seq (nextURL (worldOf stateABC)) (length (files stateABC)) ∧
    pending_src <$> promises =
      seq (nextURL (worldOf stateABC)) (length (files stateABC)) ∧
    ∀ w2 : World,
      error (state (handleMerge_resume sampleDecoder stateABC promises w2).2) =
        error (state w2) ∧
      isLoading (state (handleMerge_resume sampleDecoder stateABC promises w2).2) = false ∧
      createdURLs (runLog (handleMerge_resume sampleDecoder stateABC promises) w2) = [] ∧
      revokedURLs (runLog (handleMerge_resume sampleDecoder stateABC promises) w2) =
        seq (nextURL (worldOf stateABC)) (length (files stateABC)) ∧
      length (drawCalls (runLog (handleMerge_resume sampleDecoder stateABC promises) w2)) =
        length (files stateABC) ∧
      ∀ url,
        nextURL (worldOf stateABC) ≤ url <
          nextURL (worldOf stateABC) + length (files stateABC) →
        blobStore (handleMerge_resume sampleDecoder stateABC promises w2).2 !! url = None.
Proof.
  apply (handleMerge_success sampleDecoder stateABC (worldOf stateABC)).
  - discriminate.
  - reflexivity.
  - repeat constructor; by eexists.
Defined.

(** X10: the images are drawn in the order of the files: draw [i]
    uses the image loaded from file [i], that is the [i]-th URL the
    run created and the natural size file [i] decodes to, at x = 0,
    with the output width and the height scaled from that size. *)
Theorem draws_follow_files (decodeImage : File → option (float * float))
    (s : AppState) (w : World) (i : nat) (file : File) :
  widthInRange s = true →
  Forall (λ file, is_Some (decodeImage file)) (files s) →
  files s !! i = Some file →
  ∃ nw nh dy,
    decodeImage file = Some (nw, nh) ∧
    drawCalls (runLog (handleMerge decodeImage true s) w) !! i =
      Some (mkImage (nextURL w + i) nw nh, 0%float, dy, outputWidth s,
            (nh * (outputWidth s / nw))%float).
Proof.
  intros Hwidth Hall Hfile.
  assert (files s ≠ []) as Hfiles by (intros Hnil; by rewrite Hnil in Hfile).
  destruct (settled_loads decodeImage (nextURL w) (files s) Hall) as [imgs Himgs].
  destruct (settled_all _ _ _ _ Himgs) as [Hsrc Hdims].
  rewrite (handleMerge_merged_drawCalls decodeImage s imgs w) by done.
  rewrite compositeLog_drawCalls, list_lookup_imap.
  assert ((src <$> imgs) !! i = Some (nextURL w + i)) as Hsrc_i.
  { rewrite Hsrc. apply lookup_seq. split; [done|]. by apply lookup_lt_Some in Hfile. }
  rewrite list_lookup_fmap in Hsrc_i.
  destruct (imgs !! i) as [[url nw nh]|] eqn:Himg; [|done].
  simpl in Hsrc_i. apply (inj Some) in Hsrc_i. subst url.
  assert (((λ img, Some (naturalWidth img, naturalHeight img)) <$> imgs) !! i =
          Some (decodeImage file)) as Hdims_i.
  { by rewrite Hdims, list_lookup_fmap, Hfile. }
  rewrite list_lookup_fmap, Himg in Hdims_i. simpl in Hdims_i.
  apply (inj Some) in Hdims_i.
  exists nw, nh. eexists. split; [done|]. reflexivity.
Qed.

Lemma draws_follow_files_witness :
  ∃ nw nh dy,
    sampleDecoder fileC = Some (nw, nh) ∧
    drawCalls (runLog (handleMerge sampleDecoder true stateABC) worldRunning) !! 2 =
      Some (mkImage (nextURL worldRunning + 2) nw nh, 0%float, dy,
            outputWidth stateABC, (nh * (outputWidth stateABC / nw))%float).
Proof.
  apply (draws_follow_files sampleDecoder stateABC worldRunning 2 fileC).
  - reflexivity.
  - repeat constructor; by eexists.
  - reflexivity.
Defined.

(** ** The stack of images *)

Lemma fsum_take_S (hs : list float) (i : nat) (h : float) :
  hs !! i = Some h → fsum (take (S i) hs) = (fsum (take i hs) + h)%float.
Proof.
  intros Hh. rewrite (take_S_r _ _ _ Hh). unfold fsum. by rewrite fold_left_app.
Qed.

Lemma mergeBody_rest_log (s : AppState) (imgs : list HTMLImageElement) (w : World) :
  runLog (mergeBody_rest s imgs) w = compositeLog s imgs.
Proof.
  unfold runLog. rewrite mergeBody_rest_run. cbn [snd effects].
  by rewrite drop_app_length.
Qed.

Lemma compositeLog_canvasHeights (s : AppState) (imgs : list HTMLImageElement) :
  canvasHeights (compositeLog s imgs) =
  [fsum (scaledHeight (outputWidth s) <$> imgs)].
Proof.
  unfold compositeLog, canvasHeights. cbn [app omap list_omap].
  rewrite omap_app.
  destruct (drawLog_no_canvas_size (outputWidth s)
              (scaledHeight (outputWidth s) <$> imgs) 0 0%float imgs) as [_ Hh].
  unfold canvasHeights in Hh. by rewrite Hh.
Qed.

(** X11: the drawn images tile the canvas from the top: the first is
    drawn at y = 0, each further one exactly where the one before it
    ends (its y plus its height, in binary64), all at x = 0 with the
    output width, and the height assigned to the canvas is where the
    last one ends (0 for no image). Before any image is drawn the
    canvas has been given its width and height and filled with white
    from its origin over the size the element then has. *)
Theorem draws_tile_canvas (s : AppState) (imgs : list HTMLImageElement) (w : World) :
  (∀ img dx dy dw dh,
     drawCalls (runLog (mergeBody_rest s imgs) w) !! 0 = Some (img, dx, dy, dw, dh) →
     dy = 0%float) ∧
  (∀ i img dx dy dw dh img' dx' dy' dw' dh',
     drawCalls (runLog (mergeBody_rest s imgs) w) !! i = Some (img, dx, dy, dw, dh) →
     drawCalls (runLog (mergeBody_rest s imgs) w) !! S i = Some (img', dx', dy', dw', dh') →
     dy' = (dy + dh)%float) ∧
  (∀ i img dx dy dw dh,
     drawCalls (runLog (mergeBody_rest s imgs) w) !! i = Some (img, dx, dy, dw, dh) →
     dx = 0%float ∧ dw = outputWidth s ∧
     (S i = length imgs →
      canvasHeights (runLog (mergeBody_rest s imgs) w) = [(dy + dh)%float])) ∧
  (imgs = [] → canvasHeights (runLog (mergeBody_rest s imgs) w) = [0%float]) ∧
  ∃ H after,
    canvasHeights (runLog (mergeBody_rest s imgs) w) = [H] ∧
    runLog (mergeBody_rest s imgs) w =
      [CanvasWidth (outputWidth s); CanvasHeight H;
       FillRectCanvas "white" 0%float 0%float] ++ after.
Proof.
  rewrite mergeBody_rest_log, compositeLog_drawCalls, compositeLog_canvasHeights.
  set (W := outputWidth s). set (hs := scaledHeight W <$> imgs).
  assert (∀ i c, imap (λ i img, (img, 0%float, fsum (take i hs), W, scaledHeight W img))
                   imgs !! i = Some c →
          ∃ img, imgs !! i = Some img ∧ hs !! i = Some (scaledHeight W img) ∧
                 c = (img, 0%float, fsum (take i hs), W, scaledHeight W img)) as Hcall.
  { intros i c. rewrite list_lookup_imap. unfold hs. rewrite list_lookup_fmap.
    destruct (imgs !! i) as [img|]; [|done]. simpl. intros Hc%(inj Some).
    by exists img. }
  split_and!.
  - intros img dx dy dw dh (img0 & _ & _ & Hc)%Hcall.
    by apply (f_equal (λ c, c.1.1.2)) in Hc.
  - intros i img dx dy dw dh img' dx' dy' dw' dh'
      (img0 & _ & Hh & Hc)%Hcall (img1 & _ & _ & Hc')%Hcall.
    apply (f_equal (λ c, c.1.1.2)) in Hc' as Hy'. simpl in Hy'.
    apply (f_equal (λ c, c.1.1.2)) in Hc as Hy. simpl in Hy.
    apply (f_equal (λ c, c.2)) in Hc as Hdh. simpl in Hdh.
    rewrite Hy', Hy, Hdh. by apply fsum_take_S.
  - intros i img dx dy dw dh (img0 & Himg & Hh & Hc)%Hcall.
    apply (f_equal (λ c, c.1.1.2)) in Hc as Hy. simpl in Hy.
    apply (f_equal (λ c, c.2)) in Hc as Hdh. simpl in Hdh.
    apply (f_equal (λ c, c.1.1.1.2)) in Hc as Hx. simpl in Hx.
    apply (f_equal (λ c, c.1.2)) in Hc as Hw. simpl in Hw.
    split_and!; [done | done |]. intros Hlast.
    rewrite Hy, Hdh, <- (fsum_take_S hs i) by done.
    rewrite take_ge; [done|]. unfold hs. rewrite length_fmap. lia.
  - by intros ->.
  - unfold compositeLog. by eexists _, _.
Qed.

Lemma draws_tile_canvas_witness :
  drawCalls (runLog (mergeBody_rest stateABC scenarioImages) (worldOf stateABC)) !! 1 =
    Some (mkImage 1 400 400, 0, 390, 780, 780)%float ∧
  drawCalls (runLog (mergeBody_rest stateABC scenarioImages) (worldOf stateABC)) !! 2 =
    Some (mkImage 2 1200 600, 0, 1170, 780, 390)%float ∧
  1170%float = (390 + 780)%float ∧
  canvasHeights (runLog (mergeBody_rest stateABC scenarioImages) (worldOf stateABC)) =
    [(1170 + 390)%float].
Proof.
  assert (drawCalls (runLog (mergeBody_rest stateABC scenarioImages) (worldOf stateABC))
            !! 1 = Some (mkImage 1 400 400, 0, 390, 780, 780)%float) as H1
    by (vm_compute; reflexivity).
  assert (drawCalls (runLog (mergeBody_rest stateABC scenarioImages) (worldOf stateABC))
            !! 2 = Some (mkImage 2 1200 600, 0, 1170, 780, 390)%float) as H2
    by (vm_compute; reflexivity).
  destruct (draws_tile_canvas stateABC scenarioImages (worldOf stateABC))
    as (_ & Hnext & Hlast & _).
  split_and!; [exact H1 | exact H2 | |].
  - exact (Hnext 1 _ _ _ _ _ _ _ _ _ _ H1 H2).
  - destruct (Hlast 2 _ _ _ _ _ H2) as (_ & _ & Hheight). by apply Hheight.
Defined.

Lemma acquireLog_no_export (url : nat) (fs : list File) :
  Forall (λ e, isExport e = false) (acquireLog url fs).
Proof.
  revert url. induction fs as [|file rest IH]; intros url; constructor;
    [done | apply IH].
Qed.

Lemma drawLog_no_export (W : float) (hs : list float) (index : nat) (y : float)
    (imgs : list HTMLImageElement) :
  Forall (λ e, isExport e = false) (drawLog W hs index y imgs).
Proof.
  revert index y. induction imgs as [|img rest IH]; intros index y; [constructor|].
  simpl. do 2 (constructor; [done|]). apply IH.
Qed.

(** X12: the output format only changes how the canvas is exported.
    Two successful runs over the same files that differ in the format
    make the same calls up to the export, the last thing before
    [setIsLoading(false)]: [toDataURL('image/jpeg', 0.92)] and a
    download named merged-image.jpeg for jpeg, [toDataURL('image/png',
    undefined)] and merged-image.png for png. *)
Theorem format_only_changes_export (decodeImage : File → option (float * float))
    (s : AppState) (w : World) :
  files s ≠ [] → widthInRange s = true →
  Forall (λ file, is_Some (decodeImage file)) (files s) →
  ∃ before,
    Forall (λ e, isExport e = false) before ∧
    length (drawCalls before) = length (files s) ∧
    runLog (handleMerge decodeImage true (setOutputFormat jpeg s)) w =
      before ++ [ToDataURL "image/jpeg" (Some jpegQuality);
                 LinkClick "merged-image.jpeg"; CallSetIsLoading false] ∧
    runLog (handleMerge decodeImage true (setOutputFormat png s)) w =
      before ++ [ToDataURL "image/png" None;
                 LinkClick "merged-image.png"; CallSetIsLoading false].
Proof.
  intros Hfiles Hwidth Hall.
  destruct (settled_loads decodeImage (nextURL w) (files s) Hall) as [imgs Himgs].
  destruct (settled_all _ _ _ _ Himgs) as [Hsrc _].
  set (hs := scaledHeight (outputWidth s) <$> imgs).
  exists ([CallSetIsLoading true; CallSetError None; CreateCanvas] ++
          acquireLog (nextURL w) (files s) ++
          [CanvasWidth (outputWidth s); CanvasHeight (fsum hs);
           FillRectCanvas "white" 0%float 0%float] ++
          drawLog (outputWidth s) hs 0 0%float imgs).
  split_and!.
  - rewrite !Forall_app. split_and!; [by repeat constructor | | by repeat constructor |].
    + apply acquireLog_no_export.
    + apply drawLog_no_export.
  - rewrite !drawCalls_app.
    rewrite (no_output_no_draws (acquireLog _ _)) by apply acquireLog_no_output.
    simpl. rewrite drawLog_calls_all by (unfold hs; by rewrite length_fmap).
    rewrite length_imap. by rewrite <- (length_fmap src), Hsrc, length_seq.
  - rewrite (handleMerge_merged_log decodeImage (setOutputFormat jpeg s) imgs w) by done.
    unfold compositeLog, exportLog. simpl. by rewrite <- !app_assoc.
  - rewrite (handleMerge_merged_log decodeImage (setOutputFormat png s) imgs w) by done.
    unfold compositeLog, exportLog. simpl. by rewrite <- !app_assoc.
Qed.

Lemma format_only_changes_export_witness :
  ∃ before,
    Forall (λ e, isExport e = false) before ∧
    length (drawCalls before) = length (files stateABC) ∧
    runLog (handleMerge sampleDecoder true (setOutputFormat jpeg stateABC))
      (worldOf stateABC) =
      before ++ [ToDataURL "image/jpeg" (Some jpegQuality);
                 LinkClick "merged-image.jpeg"; CallSetIsLoading false] ∧
    runLog (handleMerge sampleDecoder true (setOutputFormat png stateABC))
      (worldOf stateABC) =
      before ++ [ToDataURL "image/png" None;
                 LinkClick "merged-image.png"; CallSetIsLoading false].
Proof.
  apply (format_only_changes_export sampleDecoder stateABC (worldOf stateABC)).
  - discriminate.
  - reflexivity.
  - repeat constructor; by eexists.
Defined.

(** ** Failed runs *)

(** X14: in a run that loads its files and finds one that does not
    decode, every object URL the run created is still in the blob
    store at the end, each for its file; none is revoked, and the
    URLs that were there before the run are as they were. *)
Theorem failed_run_keeps_every_url (decodeImage : File → option (float * float))
    (s : AppState) (w : World) :
  files s ≠ [] → widthInRange s = true →
  (∃ file, file ∈ files s ∧ decodeImage file = None) →
  (∀ i file, files s !! i = Some file →
     blobStore (handleMerge decodeImage true s w).2 !! (nextURL w + i) = Some file) ∧
  (∀ url, url < nextURL w →
     blobStore (handleMerge decodeImage true s w).2 !! url = blobStore w !! url) ∧
  createdURLs (runLog (handleMerge decodeImage true s) w) =
    seq (nextURL w) (length (files s)) ∧
  revokedURLs (runLog (handleMerge decodeImage true s) w) = [].
Proof.
  intros Hfiles Hwidth Hbad. unfold runLog.
  rewrite (handleMerge_rejected_run decodeImage s w Hfiles Hwidth Hbad).
  cbn [snd blobStore effects]. rewrite drop_app_length.
  destruct (acquireLog_urls (nextURL w) (files s)) as [Hcreated Hrevoked].
  split_and!.
  - intros i file Hi. pose proof (lookup_lt_Some _ _ _ Hi).
    rewrite acquired_lookup. case_decide; [|lia].
    by replace (nextURL w + i - nextURL w) with i by lia.
  - intros url Hold. rewrite acquired_lookup. case_decide; [lia | done].
  - rewrite !createdURLs_app, Hcreated. simpl. by rewrite app_nil_r.
  - rewrite !revokedURLs_app, Hrevoked. done.
Qed.

Lemma failed_run_keeps_every_url_witness :
  (∀ i file, files stateBroken !! i = Some file →
     blobStore (handleMerge sampleDecoder true stateBroken worldRunning).2
       !! (nextURL worldRunning + i) = Some file) ∧
  (∀ url, url < nextURL worldRunning →
     blobStore (handleMerge sampleDecoder true stateBroken worldRunning).2 !! url =
     blobStore worldRunning !! url) ∧
  createdURLs (runLog (handleMerge sampleDecoder true stateBroken) worldRunning) =
    seq (nextURL worldRunning) (length (files stateBroken)) ∧
  revokedURLs (runLog (handleMerge sampleDecoder true stateBroken) worldRunning) = [].
Proof.
  apply (failed_run_keeps_every_url sampleDecoder stateBroken worldRunning).
  - discriminate.
  - reflexivity.
  - exists corrupt. split; [|reflexivity].
    apply list_elem_of_further, list_elem_of_here.
Defined.

(** X16: after a run that failed on one file that does not decode,
    removing that file makes the next run succeed, as long as a file
    is left and the others decode: the failed run set the processing
    error and drew nothing; the run after the removal clears the
    error, ends with [isLoading] false and draws the remaining files
    with their scaled heights. *)
Theorem retry_after_removing_corrupt_file
    (decodeImage : File → option (float * float))
    (w : World) (before after : list File) (bad : File) :
  files (state w) = before ++ bad :: after →
  decodeImage bad = None →
  Forall (λ file, is_Some (decodeImage file)) (before ++ after) →
  before ++ after ≠ [] →
  widthInRange (state w) = true →
  let w1 := (handleMerge decodeImage true (state w) w).2 in
  let w2 := onState (handleRemoveFile (length before)) w1 in
  let w3 := (handleMerge decodeImage true (state w2) w2).2 in
  error (state w1) = Some MSG_PROCESSING ∧
  drawCalls (runLog (handleMerge decodeImage true (state w)) w) = [] ∧
  files (state w2) = before ++ after ∧
  error (state w3) = None ∧ isLoading (state w3) = false ∧
  files (state w3) = before ++ after ∧
  drawnHeights (runLog (handleMerge decodeImage true (state w2)) w2) =
    fileHeight decodeImage (outputWidth (state w)) <$> (before ++ after).
Proof.
  intros Hsplit Hbad Hall Hleft Hwidth w1 w2 w3.
  assert (files (state w) ≠ []) as Hfiles by (rewrite Hsplit; by destruct before).
  assert (∃ file, file ∈ files (state w) ∧ decodeImage file = None) as Hex.
  { exists bad. split; [|done]. rewrite Hsplit.
    apply elem_of_app. right. apply list_elem_of_here. }
  assert (w1 = failedWorld (state w) w) as Hw1.
  { unfold w1. by rewrite (handleMerge_rejected_run decodeImage (state w) w). }
  assert (files (state w2) = before ++ after) as Hfiles2.
  { unfold w2. rewrite Hw1. simpl. rewrite filter_indexed_skip.
    case_decide; [|lia]. rewrite Nat.sub_0_r, Hsplit. apply delete_middle. }
  assert (outputWidth (state w2) = outputWidth (state w)) as Hwidth2.
  { unfold w2. by rewrite Hw1. }
  assert (widthInRange (state w2) = true) as Hrange2.
  { unfold widthInRange in *. by rewrite Hwidth2. }
  assert (Forall (λ file, is_Some (decodeImage file)) (files (state w2))) as Hall2
    by by rewrite Hfiles2.
  assert (files (state w2) ≠ []) as Hne2 by by rewrite Hfiles2.
  destruct (settled_loads decodeImage (nextURL w2) (files (state w2)) Hall2)
    as [imgs Himgs].
  assert (w3 = mergedWorld (state w2) imgs w2) as Hw3.
  { unfold w3. by rewrite (handleMerge_merged_run decodeImage (state w2) imgs w2). }
  split_and!.
  - by rewrite Hw1.
  - unfold runLog. rewrite (handleMerge_rejected_run decodeImage (state w) w) by done.
    cbn [snd effects]. rewrite drop_app_length.
    apply no_output_no_draws. rewrite !Forall_app. split_and!.
    + by repeat constructor.
    + apply acquireLog_no_output.
    + unfold failureLog. by repeat constructor.
  - done.
  - by rewrite Hw3.
  - by rewrite Hw3.
  - by rewrite Hw3.
  - rewrite handleMerge_drawnHeights by done. by rewrite Hwidth2, Hfiles2.
Qed.

Lemma retry_after_removing_corrupt_file_witness :
  let w := worldOf stateBroken in
  let w1 := (handleMerge sampleDecoder true (state w) w).2 in
  let w2 := onState (handleRemoveFile (length [fileA])) w1 in
  let w3 := (handleMerge sampleDecoder true (state w2) w2).2 in
  error (state w1) = Some MSG_PROCESSING ∧
  drawCalls (runLog (handleMerge sampleDecoder true (state w)) w) = [] ∧
  files (state w2) = [fileA] ++ [] ∧
  error (state w3) = None ∧ isLoading (state w3) = false ∧
  files (state w3) = [fileA] ++ [] ∧
  drawnHeights (runLog (handleMerge sampleDecoder true (state w2)) w2) =
    fileHeight sampleDecoder (outputWidth (state w)) <$> ([fileA] ++ []).
Proof.
  apply (retry_after_removing_corrupt_file sampleDecoder (worldOf stateBroken)
           [fileA] [] corrupt).
  - reflexivity.
  - reflexivity.
  - repeat constructor; by eexists.
  - discriminate.
  - reflexivity.
Defined.

(** ** Around a run *)

(** X18: when a run ends, the merge button is enabled again exactly
    when files are left. For the part after the [await] this holds in
    whatever world the run resumes, also when files were removed or
    added in the meantime; for a run that ends before its [await]
    (rejected by a validation, or without a 2d context) it holds when
    no other run was in flight. *)
Theorem mergeButton_enabled_after_run :
  (∀ (decodeImage : File → option (float * float)) (s : AppState)
     (promises : list PendingImage) (w : World),
     mergeButton_disabled (state (handleMerge_resume decodeImage s promises w).2) = true
     ↔ files (state w) = []) ∧
  (∀ (ctx : bool) (w w' : World),
     handleMerge_begin ctx (state w) w = (Normal None, w') →
     isLoading (state w) = false →
     (mergeButton_disabled (state w') = true ↔ files (state w) = [])).
Proof.
  assert (∀ l : list File, (length l =? 0) = true ↔ l = []) as Hempty.
  { intros [|file rest]; simpl; split; done. }
  split.
  - intros decodeImage s promises w. unfold mergeButton_disabled.
    rewrite handleMerge_resume_idle.
    destruct (handleMerge_resume_frame decodeImage s promises w) as (-> & _).
    simpl. apply Hempty.
  - intros ctx w w' Hrun Hidle. unfold mergeButton_disabled.
    destruct (handleMerge_begin_frame ctx (state w) w) as (Hfiles & _).
    rewrite Hrun in Hfiles. simpl in Hfiles. rewrite Hfiles.
    assert (isLoading (state w') = false) as ->; [|apply Hempty].
    destruct (handleMerge_begin_outcomes ctx (state w) w)
      as [(msg & Hrej)|[(w1 & Hend & Hw1)|(ps & w1 & Hsusp & _)]].
    + rewrite Hrej in Hrun. injection Hrun as <-. exact Hidle.
    + rewrite Hend in Hrun. by injection Hrun as <-.
    + rewrite Hsusp in Hrun. done.
Qed.

Lemma mergeButton_enabled_after_run_witness :
  (mergeButton_disabled
     (state (handleMerge_resume sampleDecoder stateABC (promisesFrom 0 (files stateABC))
               (onState (handleRemoveFile 0)
                  (onState (handleRemoveFile 0)
                     (onState (handleRemoveFile 0) worldRunning)))).2) = true ↔
   files (state (onState (handleRemoveFile 0)
                   (onState (handleRemoveFile 0)
                      (onState (handleRemoveFile 0) worldRunning)))) = []) ∧
  (mergeButton_disabled (state (noContextWorld (worldOf stateABC))) = true ↔
   files (state (worldOf stateABC)) = []).
Proof.
  destruct mergeButton_enabled_after_run as [Hresume Hbegin].
  split.
  - apply Hresume.
  - apply (Hbegin false (worldOf stateABC)); [|reflexivity].
    by apply handleMerge_begin_no_context.
Defined.

Lemma settled_srcs (decodeImage : File → option (float * float))
    (promises : list PendingImage) (imgs : list HTMLImageElement) :
  mapM (settled decodeImage) promises = Some imgs →
  src <$> imgs = pending_src <$> promises.
Proof.
  intros Hall%mapM_Some. induction Hall as [|p img ps imgs Hp _ IH]; [done|].
  rewrite !fmap_cons, IH. f_equal. unfold settled in Hp.
  destruct (decodeImage (pending_file p)) as [[nw nh]|]; [|done].
  simpl in Hp. apply (inj Some) in Hp. by subst img.
Qed.

(** X19: a suspended run resumes on the files, width and format its
    handler was created with, whatever happened to the state in the
    meantime: the calls it makes do not depend on the world it resumes
    in. It leaves the files, width and format of that world alone, and
    touches no URL in the blob store but its own. *)
Theorem handleMerge_resume_isolated (decodeImage : File → option (float * float))
    (s : AppState) (promises : list PendingImage) (w w' : World) :
  runLog (handleMerge_resume decodeImage s promises) w =
    runLog (handleMerge_resume decodeImage s promises) w' ∧
  files (state (handleMerge_resume decodeImage s promises w).2) = files (state w) ∧
  outputWidth (state (handleMerge_resume decodeImage s promises w).2) =
    outputWidth (state w) ∧
  outputFormat (state (handleMerge_resume decodeImage s promises w).2) =
    outputFormat (state w) ∧
  isLoading (state (handleMerge_resume decodeImage s promises w).2) = false ∧
  ∀ url, url ∉ pending_src <$> promises →
    blobStore (handleMerge_resume decodeImage s promises w).2 !! url = blobStore w !! url.
Proof.
  unfold runLog.
  destruct (mapM (settled decodeImage) promises) as [imgs|] eqn:Hsettled.
  - rewrite !(handleMerge_resume_loaded _ _ _ imgs) by done.
    cbn [snd effects state blobStore]. rewrite !drop_app_length.
    split_and!; try done. intros url Hother.
    rewrite released_lookup, (settled_srcs _ _ _ Hsettled). by case_decide.
  - rewrite !handleMerge_resume_rejected by done.
    cbn [snd effects state blobStore]. rewrite !drop_app_length. done.
Qed.

Lemma handleMerge_resume_isolated_witness :
  runLog (handleMerge_resume sampleDecoder stateABC
            (promisesFrom 0 (files stateABC))) worldRunning =
    runLog (handleMerge_resume sampleDecoder stateABC
              (promisesFrom 0 (files stateABC)))
      (onState (handleRemoveFile 0) worldRunning) ∧
  files (state (handleMerge_resume sampleDecoder stateABC
                  (promisesFrom 0 (files stateABC))
                  (onState (handleRemoveFile 0) worldRunning)).2) = [fileB; fileC] ∧
  blobStore (handleMerge_resume sampleDecoder stateABC
               (promisesFrom 0 (files stateABC))
               (handleMerge_begin true stateBroken worldRunning).2).2 !! 4 =
    Some corrupt.
Proof.
  split_and!.
  - apply (handleMerge_resume_isolated sampleDecoder stateABC
             (promisesFrom 0 (files stateABC)) worldRunning
             (onState (handleRemoveFile 0) worldRunning)).
  - destruct (handleMerge_resume_isolated sampleDecoder stateABC
                (promisesFrom 0 (files stateABC))
                (onState (handleRemoveFile 0) worldRunning) worldRunning)
      as (_ & -> & _). reflexivity.
  - destruct (handleMerge_resume_isolated sampleDecoder stateABC
                (promisesFrom 0 (files stateABC))
                (handleMerge_begin true stateBroken worldRunning).2 worldRunning)
      as (_ & _ & _ & _ & _ & Hother).
    rewrite Hother.
    + reflexivity.
    + simpl. rewrite !elem_of_cons. intros [?|[?|[?|Hnil]]]; try done.
      by apply elem_of_nil in Hnil.
Defined.

(** X20: a batch is admitted exactly when the files already there and
    its image-typed files together are at most 10, 10 included: then
    these are appended, in the order received, behind the files
    already there and the error cell is cleared; otherwise the error
    cell is set. *)
Theorem addFiles_admits_up_to_ten (s : AppState) (newFiles : list File) :
  (length (files s) + length (List.filter isImageFile newFiles) ≤ 10 →
     files (addFiles newFiles s) = files s ++ List.filter isImageFile newFiles ∧
     error (addFiles newFiles s) = None) ∧
  (error (addFiles newFiles s) = None ↔
     length (files s) + length (List.filter isImageFile newFiles) ≤ 10).
Proof.
  unfold addFiles.
  destruct (decide (length (files s) + length (List.filter isImageFile newFiles) ≤ 10))
    as [Hfits|Hover].
  - rewrite addFiles_on_admitted by done. done.
  - rewrite addFiles_on_rejected by lia. split; [lia|]. simpl. split; [done | lia].
Qed.

Lemma addFiles_admits_up_to_ten_witness :
  files (addFiles (notes :: nineImages) (setFiles (λ _, [fileA]) initialState)) =
    files (setFiles (λ _, [fileA]) initialState) ++
    List.filter isImageFile (notes :: nineImages) ∧
  error (addFiles (notes :: nineImages) (setFiles (λ _, [fileA]) initialState)) = None ∧
  length (files (addFiles (notes :: nineImages) (setFiles (λ _, [fileA]) initialState)))
    = 10.
Proof.
  destruct (addFiles_admits_up_to_ten (setFiles (λ _, [fileA]) initialState)
              (notes :: nineImages)) as [Hadmit _].
  destruct Hadmit as [Hfiles Herror]; [simpl; lia|].
  split_and!; [exact Hfiles | exact Herror | by rewrite Hfiles].
Defined.
